(** * Streaming and recording pipeline of the background-segmentation client

    A shallow embedding of the parts of the client that carry invariants:

    - [Telemetry]: the composite score and grade of
      [client/components/PerformanceDashboard.tsx];
    - [Recording]: [formatFileSize], [startRecording] and [stopRecording] of
      [client/components/RecordingStudio.tsx];
    - [Home]: the connection manager and the capture-transmit loop of the
      [Home] component ([connectWebSocket], [handleWebSocketMessage],
      [sendFrameToBackend], [startCamera], [stopCamera]).

    Conventions.  A JavaScript [number] is an exact rational ([Q]) or, where
    the program only ever holds an integer (byte counts, counters, epoch
    milliseconds), an integer ([Z], [nat]); rounding of binary floating point
    is outside the model.  Callbacks run to completion on one event thread, so
    every handler is a function from the component state to the next state
    together with the list of effects it issued, in program order.  A closure
    keeps the values of the render that created it: a handler that reads a
    React state variable reads the captured value, which is passed explicitly
    to the function that models the closure. *)

From Stdlib Require Import ZArith QArith Qround Qminmax Lqa Lia.
From Stdlib Require Import Bool List String Ascii.
From Stdlib Require Import Decimal DecimalString DecimalN.
Import ListNotations.

Local Open Scope string_scope.

(** [Array.prototype.slice(-n)]: the last [n] elements, the whole array when
    it is shorter. *)
Definition slice_last {A : Type} (n : nat) (l : list A) : list A :=
  skipn (List.length l - n) l.

(** The text before the first occurrence of [c], and the text after it when
    [c] occurs. *)
Fixpoint split_on (c : ascii) (s : string) : string * option string :=
  match s with
  | EmptyString => (EmptyString, None)
  | String a s' =>
      if Ascii.eqb a c then (EmptyString, Some s')
      else let (l, r) := split_on c s' in (String a l, r)
  end.

(** [Math.round]: the nearest integer, halves towards plus infinity. *)
Definition Math_round (x : Q) : Z := Qfloor (x + (1 # 2)).

(* ------------------------------------------------------------------ *)
(** ** PerformanceDashboard.tsx *)

Module Telemetry.

Local Open Scope Q_scope.

Record PerformanceData := {
  fps : Q;
  latency : Q;
  cpuUsage : Q;
  memoryUsage : Q;
  frameDrops : Q;
  networkLatency : Q;
  processingTime : Q;
  timestamp : Q
}.

Record Grade := { grade : string; color : string; bg : string }.

Definition Math_min (x y : Q) : Q := Qmin x y.
Definition Math_max (x y : Q) : Q := Qmax x y.

(** [recent.reduce((sum, d) => sum + f(d), 0)] *)
Definition reduce_sum (f : PerformanceData -> Q) (recent : list PerformanceData) : Q :=
  fold_left (fun sum d => sum + f d) recent 0.

(** [recent.reduce(...) / recent.length] *)
Definition average (f : PerformanceData -> Q) (recent : list PerformanceData) : Q :=
  reduce_sum f recent / inject_Z (Z.of_nat (List.length recent)).

Definition recent_window (data : list PerformanceData) : list PerformanceData :=
  slice_last 10 data.

Definition avgFps (recent : list PerformanceData) : Q := average fps recent.
Definition avgLatency (recent : list PerformanceData) : Q := average latency recent.
Definition avgCpu (recent : list PerformanceData) : Q := average cpuUsage recent.

Definition fpsScore (recent : list PerformanceData) : Q :=
  Math_min (avgFps recent / 30) 1 * 25.

Definition latencyScore (recent : list PerformanceData) : Q :=
  Math_max 0 (1 - avgLatency recent / 100) * 25.

Definition cpuScore (recent : list PerformanceData) : Q :=
  Math_max 0 (1 - avgCpu recent / 100) * 25.

Definition stabilityScore : Q := 25.

(** The result is an integer: either the literal [0] of the early return or
    a [Math.round]. *)
Definition getPerformanceScore (data : list PerformanceData) : Z :=
  match data with
  | [] => 0%Z
  | _ :: _ =>
      let recent := recent_window data in
      Math_round (fpsScore recent + latencyScore recent + cpuScore recent
                  + stabilityScore)
  end.

Definition getPerformanceGrade (score : Q) : Grade :=
  if Qle_bool 90 score then
    {| grade := "A+"; color := "text-green-400"; bg := "bg-green-500/20" |}
  else if Qle_bool 80 score then
    {| grade := "A"; color := "text-green-400"; bg := "bg-green-500/20" |}
  else if Qle_bool 70 score then
    {| grade := "B"; color := "text-yellow-400"; bg := "bg-yellow-500/20" |}
  else if Qle_bool 60 score then
    {| grade := "C"; color := "text-orange-400"; bg := "bg-orange-500/20" |}
  else
    {| grade := "D"; color := "text-red-400"; bg := "bg-red-500/20" |}.

(** [const performanceScore = getPerformanceScore();
     const grade = getPerformanceGrade(performanceScore);] *)
Definition performanceScore (data : list PerformanceData) : Z :=
  getPerformanceScore data.

Definition dashboardGrade (data : list PerformanceData) : Grade :=
  getPerformanceGrade (inject_Z (performanceScore data)).

(** The sentence of the specification on the range of the scores. *)
Definition scores_in_range (data : list PerformanceData) : Prop :=
  let recent := recent_window data in
  (0 <= fpsScore recent <= 25) /\
  (0 <= latencyScore recent <= 25) /\
  (0 <= cpuScore recent <= 25) /\
  (0 <= stabilityScore <= 25) /\
  (0 <= getPerformanceScore data <= 100)%Z.

(** A sample of which only the three scored fields matter. *)
Definition sample (f l c : Q) : PerformanceData :=
  {| fps := f; latency := l; cpuUsage := c; memoryUsage := 0; frameDrops := 0;
     networkLatency := 0; processingTime := 0; timestamp := 0 |}.

End Telemetry.

(* ------------------------------------------------------------------ *)
(** ** RecordingStudio.tsx: size formatting *)

Module Recording.

Definition k : Z := 1024.
Definition sizes : list string := ["Bytes"; "KB"; "MB"; "GB"].

(** [sizes[i]]: an index past the end of the array reads [undefined], which
    the string concatenation prints as the word. *)
Definition sizes_at (i : Z) : string := nth (Z.to_nat i) sizes "undefined".

(** [Math.floor(Math.log(bytes) / Math.log(k))] for an integer [bytes >= 1]:
    the exact floor of the logarithm in base [k = 2^10], the quotient of the
    two logarithms being taken without rounding error. *)
Definition unit_index (bytes : Z) : Z := Z.log2 bytes / 10.

Definition string_of_Z (z : Z) : string := NilZero.string_of_uint (N.to_uint (Z.to_N z)).

Definition digit (d : Z) : string := string_of_Z (d mod 10).

(** The integer nearest to [100 * x], halves upwards: the [n] of the
    definition of [toFixed] with two fraction digits. *)
Definition hundredths (x : Q) : Z := Qfloor (x * 100 + (1 # 2)).

(** [x.toFixed(2)] for [x >= 0]: always two fraction digits. *)
Definition toFixed2 (x : Q) : string :=
  let n := hundredths x in
  string_of_Z (n / 100) ++ "." ++ digit (n / 10) ++ digit n.

Definition parse_digits (s : string) : option Z :=
  option_map (fun d => Z.of_N (N.of_uint d)) (NilZero.uint_of_string s).

(** The digits after the point, as a number in [0, 1). *)
Definition parse_fraction (f : string) : option Q :=
  option_map (fun n => n # Pos.pow 10 (Pos.of_nat (String.length f))) (parse_digits f).

(** [parseFloat] on an unsigned decimal numeral with an optional fraction,
    the only strings it is applied to here; [None] stands for [NaN]. *)
Definition parseFloat (s : string) : option Q :=
  let (ip, fp) := split_on "." s in
  match parse_digits ip, fp with
  | Some i, None => Some (inject_Z i)
  | Some i, Some f => option_map (Qplus (inject_Z i)) (parse_fraction f)
  | None, _ => None
  end.

(** The fraction digits of a number with [f] hundredths, [0 <= f < 100]:
    trailing zeros are not printed. *)
Definition fraction_string (f : Z) : string :=
  if (f =? 0)%Z then ""
  else "." ++ digit (f / 10) ++ (if (f mod 10 =? 0)%Z then "" else digit f).

(** Conversion of a number to a string, as the concatenation with [' ']
    performs it, for a number [q >= 0] with at most two fraction digits: the
    shortest numeral, without trailing zeros. *)
Definition Number_toString (q : Q) : string :=
  let n := Qfloor (q * 100) in
  string_of_Z (n / 100) ++ fraction_string (n mod 100).

(** [formatFileSize(bytes)] for an integer byte count, as [blob.size] is.
    The quotient [bytes / Math.pow(k, i)] is exact.  On a negative count
    [Math.log] yields [NaN], which goes through to the text. *)
Definition formatFileSize (bytes : Z) : string :=
  if (bytes =? 0)%Z then "0 Bytes"
  else if (bytes <? 0)%Z then "NaN undefined"
  else
    let i := unit_index bytes in
    match parseFloat (toFixed2 (inject_Z bytes / inject_Z (k ^ i))) with
    | Some v => Number_toString v ++ " " ++ sizes_at i
    | None => "NaN " ++ sizes_at i
    end.

(** Position of a unit name in [sizes]. *)
Fixpoint index_of (u : string) (l : list string) : option nat :=
  match l with
  | [] => None
  | x :: l' => if String.eqb u x then Some O else option_map S (index_of u l')
  end.

(** The byte value a formatted size stands for: its numeric prefix scaled by
    its unit, when the text after the space is one of the four units. *)
Definition representedBytes (s : string) : option Q :=
  match split_on " " s with
  | (num, Some unit) =>
      match parseFloat num, index_of unit sizes with
      | Some v, Some j => Some (v * inject_Z (k ^ Z.of_nat j))%Q
      | _, _ => None
      end
  | (_, None) => None
  end.

(** Monotonicity of the formatted size at a pair of byte counts. *)
Definition monotone_at (a b : Z) : Prop :=
  exists va vb : Q,
    representedBytes (formatFileSize a) = Some va /\
    representedBytes (formatFileSize b) = Some vb /\
    (va <= vb)%Q.

(** *** Vocabulary of the properties of the formatted size *)

(** [c] occurs in [s]. *)
Fixpoint occurs (c : ascii) (s : string) : bool :=
  match s with
  | EmptyString => false
  | String a s' => Ascii.eqb a c || occurs c s'
  end.

Definition is_digit (c : ascii) : bool :=
  existsb (Ascii.eqb c) ["0"; "1"; "2"; "3"; "4"; "5"; "6"; "7"; "8"; "9"]%char.

(** Equality of the numerators and of the denominators. *)
Definition Q_eqb (p q : Q) : bool :=
  (Qnum p =? Qnum q)%Z && Pos.eqb (Qden p) (Qden q).

(** The hundredths of [bytes / K], as an integer division. *)
Definition rounded (bytes K : Z) : Z := ((200 * bytes + K) / (2 * K))%Z.

(** The byte value, in hundredths, that the formatted size of a positive
    byte count stands for. *)
Definition shown_hundredths (bytes : Z) : Z :=
  (rounded bytes (k ^ unit_index bytes) * k ^ unit_index bytes)%Z.

(** *** The recorder of the studio *)

(** A chunk handed over by the media recorder; only its size is observed. *)
Record Blob := { blob_size : Z }.

Record RecordingEntry := {
  id : string;
  name : string;
  duration : nat;
  size : string;
  timestamp : Z;
  thumbnail : string
}.

(** The [MediaRecorder] made by one call of [startRecording].  Its [onstop]
    handler is created inside that call and closes over the [recordingTime]
    of the render that produced this [startRecording]: the value is recorded
    with the object. *)
Record MediaRecorder := {
  recorder_active : bool;
  onstop_recordingTime : nat
}.

Record Studio := {
  isRecording : bool;
  recordingTime : nat;
  recordings : list RecordingEntry;
  mediaRecorderRef : option MediaRecorder;
  recordedChunksRef : list Blob;
  recordingIntervalRef : option nat;
  (* the browser side: running intervals, stop events not yet delivered *)
  intervals : list nat;
  stopEvents : list MediaRecorder
}.

Definition initialStudio : Studio :=
  {| isRecording := false; recordingTime := 0; recordings := [];
     mediaRecorderRef := None; recordedChunksRef := [];
     recordingIntervalRef := None; intervals := []; stopEvents := [] |}.

(** Readings of the clock and the object URL made by the [onstop] handler. *)
Record StopEnv := {
  date_now : Z;            (* Date.now() *)
  iso_string : string;     (* new Date().toISOString() *)
  new_date : Z;            (* new Date() *)
  object_url : string      (* URL.createObjectURL(blob) *)
}.

Inductive StudioEvent :=
| StartRecording (canvas : bool) (recorder_throws : bool)
| DataAvailable (data : Blob)
| IntervalTick (handle : nat)
| StopRecording
| RecorderStop (env : StopEnv).

(** [s.replace(/:/g, '-')] *)
Fixpoint replace_colons (s : string) : string :=
  match s with
  | EmptyString => EmptyString
  | String a s' => String (if Ascii.eqb a ":" then "-"%char else a) (replace_colons s')
  end.

(** [new Blob(chunks).size] *)
Definition Blob_of (chunks : list Blob) : Blob :=
  {| blob_size := fold_right (fun b acc => blob_size b + acc)%Z 0%Z chunks |}.

Definition fresh_handle (l : list nat) : nat := S (fold_right Nat.max 0%nat l).

Definition startRecording (canvas recorder_throws : bool) (st : Studio) : Studio :=
  if negb canvas then st
  else if recorder_throws then st        (* catch: console.error only *)
  else
    let mediaRecorder :=
      {| recorder_active := true; onstop_recordingTime := recordingTime st |} in
    let h := fresh_handle (intervals st) in
    {| isRecording := true;
       recordingTime := 0;
       recordings := recordings st;
       mediaRecorderRef := Some mediaRecorder;
       recordedChunksRef := [];
       recordingIntervalRef := Some h;
       intervals := h :: intervals st;
       stopEvents := stopEvents st |}.

(** [mediaRecorder.ondataavailable] *)
Definition ondataavailable (data : Blob) (st : Studio) : Studio :=
  match mediaRecorderRef st with
  | None => st
  | Some _ =>
      if (blob_size data >? 0)%Z then
        {| isRecording := isRecording st;
           recordingTime := recordingTime st;
           recordings := recordings st;
           mediaRecorderRef := mediaRecorderRef st;
           recordedChunksRef := recordedChunksRef st ++ [data];
           recordingIntervalRef := recordingIntervalRef st;
           intervals := intervals st;
           stopEvents := stopEvents st |}
      else st
  end.

(** The callback of [setInterval]: [setRecordingTime(prev => prev + 1)]. *)
Definition interval_tick (handle : nat) (st : Studio) : Studio :=
  if existsb (Nat.eqb handle) (intervals st) then
    {| isRecording := isRecording st;
       recordingTime := recordingTime st + 1;
       recordings := recordings st;
       mediaRecorderRef := mediaRecorderRef st;
       recordedChunksRef := recordedChunksRef st;
       recordingIntervalRef := recordingIntervalRef st;
       intervals := intervals st;
       stopEvents := stopEvents st |}
  else st.

Definition clearInterval (h : option nat) (l : list nat) : list nat :=
  match h with
  | Some n => filter (fun m => negb (Nat.eqb n m)) l
  | None => l
  end.

(** [stopRecording]; [mediaRecorder.stop()] makes the recorder inactive and
    queues its [stop] event, and does nothing on an inactive recorder. *)
Definition stopRecording (st : Studio) : Studio :=
  match mediaRecorderRef st with
  | Some mr =>
      if isRecording st then
        {| isRecording := false;
           recordingTime := recordingTime st;
           recordings := recordings st;
           mediaRecorderRef :=
             Some {| recorder_active := false;
                     onstop_recordingTime := onstop_recordingTime mr |};
           recordedChunksRef := recordedChunksRef st;
           recordingIntervalRef := recordingIntervalRef st;
           intervals := clearInterval (recordingIntervalRef st) (intervals st);
           stopEvents :=
             if recorder_active mr then stopEvents st ++ [mr] else stopEvents st |}
      else st
  | None => st
  end.

(** [mediaRecorder.onstop] of the recorder [mr]. *)
Definition onstop (mr : MediaRecorder) (env : StopEnv) (st : Studio) : Studio :=
  let blob := Blob_of (recordedChunksRef st) in
  let newRecording :=
    {| id := string_of_Z (date_now env);
       name := "Recording_" ++ replace_colons (substring 0 19 (iso_string env));
       duration := onstop_recordingTime mr;
       size := formatFileSize (blob_size blob);
       timestamp := new_date env;
       thumbnail := object_url env |} in
  {| isRecording := isRecording st;
     recordingTime := recordingTime st;
     recordings := newRecording :: recordings st;
     mediaRecorderRef := mediaRecorderRef st;
     recordedChunksRef := recordedChunksRef st;
     recordingIntervalRef := recordingIntervalRef st;
     intervals := intervals st;
     stopEvents := stopEvents st |}.

Definition studio_step (st : Studio) (e : StudioEvent) : Studio :=
  match e with
  | StartRecording canvas throws => startRecording canvas throws st
  | DataAvailable data => ondataavailable data st
  | IntervalTick h => interval_tick h st
  | StopRecording => stopRecording st
  | RecorderStop env =>
      match stopEvents st with
      | [] => st
      | mr :: rest =>
          let st' := onstop mr env st in
          {| isRecording := isRecording st';
             recordingTime := recordingTime st';
             recordings := recordings st';
             mediaRecorderRef := mediaRecorderRef st';
             recordedChunksRef := recordedChunksRef st';
             recordingIntervalRef := recordingIntervalRef st';
             intervals := intervals st';
             stopEvents := rest |}
      end
  end.

Definition studio_run (st : Studio) (es : list StudioEvent) : Studio :=
  fold_left studio_step es st.

(** The finalize scenario: start, three one-second segments with the three
    ticks of the timer, stop, and the delivery of the recorder's stop event. *)
Definition finalize_scenario (timer : nat) (b1 b2 b3 : Blob) (env : StopEnv)
  : list StudioEvent :=
  [ StartRecording true false;
    DataAvailable b1; IntervalTick timer;
    DataAvailable b2; IntervalTick timer;
    DataAvailable b3; IntervalTick timer;
    StopRecording;
    RecorderStop env ].

Definition segment : Blob := {| blob_size := 50000 |}.

Definition sample_env : StopEnv :=
  {| date_now := 1700000000000; iso_string := "2023-11-14T22:13:20.000Z";
     new_date := 1700000000000; object_url := "blob:recording" |}.

End Recording.

(* ------------------------------------------------------------------ *)
(** ** The Home component: connection manager and capture-transmit loop *)

Module Home.

Inductive ReadyState := CONNECTING | OPEN | CLOSING | CLOSED.

Definition ReadyState_eqb (a b : ReadyState) : bool :=
  match a, b with
  | CONNECTING, CONNECTING | OPEN, OPEN | CLOSING, CLOSING | CLOSED, CLOSED => true
  | _, _ => false
  end.

Inductive Quality := Q4K | QHD | QSD.

(** A [WebSocket] made by one call of [connectWebSocket].  Its handlers are
    created inside that call; [ws.onclose] reads [streamState.isStreaming]
    of the render that produced this [connectWebSocket], and that value is
    recorded with the object. *)
Record WebSocket := {
  readyState : ReadyState;
  closure_isStreaming : bool
}.

Record StreamState := {
  isStreaming : bool;
  isProcessing : bool;
  fps : Z;
  latency : Z;
  quality : Quality;
  bitrate : Q
}.

Record ConnectionState := {
  isConnected : bool;
  isConnecting : bool;
  reconnectCount : nat;
  serverVersion : string;
  serverLoad : Q
}.

Record SessionStats := { startTime : Z; processedFrames : nat }.

Record FpsCounter := { lastTime : Q; frameCount : Z }.

Record Canvas := { width : Z; height : Z }.

Inductive Category := info | error | success | warning.

Record LogEntry := { log_category : Category; log_message : string }.

(** The callback handed to [setTimeout] by [ws.onclose]; it calls the
    [connectWebSocket] of the same render as the handler. *)
Record Timer := { delay : Z; timer_closure_isStreaming : bool }.

(** An [Image] created for a processed frame, with the [data.timestamp] its
    [onload] handler closes over. *)
Record Image := { image_timestamp : option Z }.

(** The fields of an inbound message the handler reads. *)
Record Inbound := {
  msg_type : string;
  msg_data : option string;
  msg_timestamp : option Z;
  msg_background : string;
  msg_message : string;
  msg_metrics : list (string * Q)
}.

(** A value produced by [JSON.parse]: [null], an object with the fields
    above, or any other value (whose [type] property is [undefined]). *)
Inductive JSON := JNull | JObject (o : Inbound) | JOther.

Inductive ParseResult := Parsed (v : JSON) | SyntaxError (message : string).

Record BackgroundSettings := {
  background_type : string;
  background_quality : string;
  edgeSmoothing : Z
}.

(** The outbound [{type: "frame", data, timestamp, settings}]. *)
Record FrameMessage := {
  frame_data : option string;
  frame_timestamp : Z;
  frame_background : string;
  frame_quality : string;
  frame_edgeSmoothing : Z;
  frame_tier : string
}.

Inductive Effect :=
| NewWebSocket (url : string)
| WsSend (socket : nat) (message : FrameMessage)
| WsClose (socket : nat)
| SetTimeout (ms : Z)
| GateWrite (value : bool)               (* processingRef.current = value *)
| Received (data : JSON)                 (* console.log("Received WebSocket message:", data) *)
| ConsoleLog (category : Category) (message : string).

Record State := {
  sockets : list WebSocket   (* the WebSocket objects created so far *);
  wsRef : option nat;
  processingRef : bool;
  latencyRef : Z;
  fpsCounterRef : FpsCounter;
  canvasRef : option Canvas;
  streamState : StreamState;
  connectionState : ConnectionState;
  performanceMetrics : list (string * Q);
  logs : list LogEntry;
  sessionStats : SessionStats;
  showUpgrade : bool;
  currentTier : string;
  timers : list Timer   (* pending setTimeout callbacks *);
  images : list Image   (* Image objects whose load is pending *)
}.

Definition set_sockets (v : list WebSocket) (st : State) : State :=
  {| sockets := v; wsRef := wsRef st; processingRef := processingRef st;
     latencyRef := latencyRef st; fpsCounterRef := fpsCounterRef st;
     canvasRef := canvasRef st; streamState := streamState st;
     connectionState := connectionState st;
     performanceMetrics := performanceMetrics st; logs := logs st;
     sessionStats := sessionStats st; showUpgrade := showUpgrade st;
     currentTier := currentTier st; timers := timers st;
     images := images st |}.

Definition set_wsRef (v : option nat) (st : State) : State :=
  {| sockets := sockets st; wsRef := v; processingRef := processingRef st;
     latencyRef := latencyRef st; fpsCounterRef := fpsCounterRef st;
     canvasRef := canvasRef st; streamState := streamState st;
     connectionState := connectionState st;
     performanceMetrics := performanceMetrics st; logs := logs st;
     sessionStats := sessionStats st; showUpgrade := showUpgrade st;
     currentTier := currentTier st; timers := timers st;
     images := images st |}.

Definition set_processingRef (v : bool) (st : State) : State :=
  {| sockets := sockets st; wsRef := wsRef st; processingRef := v;
     latencyRef := latencyRef st; fpsCounterRef := fpsCounterRef st;
     canvasRef := canvasRef st; streamState := streamState st;
     connectionState := connectionState st;
     performanceMetrics := performanceMetrics st; logs := logs st;
     sessionStats := sessionStats st; showUpgrade := showUpgrade st;
     currentTier := currentTier st; timers := timers st;
     images := images st |}.

Definition set_latencyRef (v : Z) (st : State) : State :=
  {| sockets := sockets st; wsRef := wsRef st;
     processingRef := processingRef st; latencyRef := v;
     fpsCounterRef := fpsCounterRef st; canvasRef := canvasRef st;
     streamState := streamState st; connectionState := connectionState st;
     performanceMetrics := performanceMetrics st; logs := logs st;
     sessionStats := sessionStats st; showUpgrade := showUpgrade st;
     currentTier := currentTier st; timers := timers st;
     images := images st |}.

Definition set_fpsCounterRef (v : FpsCounter) (st : State) : State :=
  {| sockets := sockets st; wsRef := wsRef st;
     processingRef := processingRef st; latencyRef := latencyRef st;
     fpsCounterRef := v; canvasRef := canvasRef st;
     streamState := streamState st; connectionState := connectionState st;
     performanceMetrics := performanceMetrics st; logs := logs st;
     sessionStats := sessionStats st; showUpgrade := showUpgrade st;
     currentTier := currentTier st; timers := timers st;
     images := images st |}.

Definition set_canvasRef (v : option Canvas) (st : State) : State :=
  {| sockets := sockets st; wsRef := wsRef st;
     processingRef := processingRef st; latencyRef := latencyRef st;
     fpsCounterRef := fpsCounterRef st; canvasRef := v;
     streamState := streamState st; connectionState := connectionState st;
     performanceMetrics := performanceMetrics st; logs := logs st;
     sessionStats := sessionStats st; showUpgrade := showUpgrade st;
     currentTier := currentTier st; timers := timers st;
     images := images st |}.

Definition set_streamState (v : StreamState) (st : State) : State :=
  {| sockets := sockets st; wsRef := wsRef st;
     processingRef := processingRef st; latencyRef := latencyRef st;
     fpsCounterRef := fpsCounterRef st; canvasRef := canvasRef st;
     streamState := v; connectionState := connectionState st;
     performanceMetrics := performanceMetrics st; logs := logs st;
     sessionStats := sessionStats st; showUpgrade := showUpgrade st;
     currentTier := currentTier st; timers := timers st;
     images := images st |}.

Definition set_connectionState (v : ConnectionState) (st : State) : State :=
  {| sockets := sockets st; wsRef := wsRef st;
     processingRef := processingRef st; latencyRef := latencyRef st;
     fpsCounterRef := fpsCounterRef st; canvasRef := canvasRef st;
     streamState := streamState st; connectionState := v;
     performanceMetrics := performanceMetrics st; logs := logs st;
     sessionStats := sessionStats st; showUpgrade := showUpgrade st;
     currentTier := currentTier st; timers := timers st;
     images := images st |}.

Definition set_performanceMetrics (v : list (string * Q)) (st : State) : State :=
  {| sockets := sockets st; wsRef := wsRef st;
     processingRef := processingRef st; latencyRef := latencyRef st;
     fpsCounterRef := fpsCounterRef st; canvasRef := canvasRef st;
     streamState := streamState st; connectionState := connectionState st;
     performanceMetrics := v; logs := logs st;
     sessionStats := sessionStats st; showUpgrade := showUpgrade st;
     currentTier := currentTier st; timers := timers st;
     images := images st |}.

Definition set_logs (v : list LogEntry) (st : State) : State :=
  {| sockets := sockets st; wsRef := wsRef st;
     processingRef := processingRef st; latencyRef := latencyRef st;
     fpsCounterRef := fpsCounterRef st; canvasRef := canvasRef st;
     streamState := streamState st; connectionState := connectionState st;
     performanceMetrics := performanceMetrics st; logs := v;
     sessionStats := sessionStats st; showUpgrade := showUpgrade st;
     currentTier := currentTier st; timers := timers st;
     images := images st |}.

Definition set_sessionStats (v : SessionStats) (st : State) : State :=
  {| sockets := sockets st; wsRef := wsRef st;
     processingRef := processingRef st; latencyRef := latencyRef st;
     fpsCounterRef := fpsCounterRef st; canvasRef := canvasRef st;
     streamState := streamState st; connectionState := connectionState st;
     performanceMetrics := performanceMetrics st; logs := logs st;
     sessionStats := v; showUpgrade := showUpgrade st;
     currentTier := currentTier st; timers := timers st;
     images := images st |}.

Definition set_showUpgrade (v : bool) (st : State) : State :=
  {| sockets := sockets st; wsRef := wsRef st;
     processingRef := processingRef st; latencyRef := latencyRef st;
     fpsCounterRef := fpsCounterRef st; canvasRef := canvasRef st;
     streamState := streamState st; connectionState := connectionState st;
     performanceMetrics := performanceMetrics st; logs := logs st;
     sessionStats := sessionStats st; showUpgrade := v;
     currentTier := currentTier st; timers := timers st;
     images := images st |}.

Definition set_currentTier (v : string) (st : State) : State :=
  {| sockets := sockets st; wsRef := wsRef st;
     processingRef := processingRef st; latencyRef := latencyRef st;
     fpsCounterRef := fpsCounterRef st; canvasRef := canvasRef st;
     streamState := streamState st; connectionState := connectionState st;
     performanceMetrics := performanceMetrics st; logs := logs st;
     sessionStats := sessionStats st; showUpgrade := showUpgrade st;
     currentTier := v; timers := timers st; images := images st |}.

Definition set_timers (v : list Timer) (st : State) : State :=
  {| sockets := sockets st; wsRef := wsRef st;
     processingRef := processingRef st; latencyRef := latencyRef st;
     fpsCounterRef := fpsCounterRef st; canvasRef := canvasRef st;
     streamState := streamState st; connectionState := connectionState st;
     performanceMetrics := performanceMetrics st; logs := logs st;
     sessionStats := sessionStats st; showUpgrade := showUpgrade st;
     currentTier := currentTier st; timers := v; images := images st |}.

Definition set_images (v : list Image) (st : State) : State :=
  {| sockets := sockets st; wsRef := wsRef st;
     processingRef := processingRef st; latencyRef := latencyRef st;
     fpsCounterRef := fpsCounterRef st; canvasRef := canvasRef st;
     streamState := streamState st; connectionState := connectionState st;
     performanceMetrics := performanceMetrics st; logs := logs st;
     sessionStats := sessionStats st; showUpgrade := showUpgrade st;
     currentTier := currentTier st; timers := timers st; images := v |}.

(** *** Handler code: state, effects, exceptions *)

Inductive Completion (A : Type) := Return (a : A) | Throw (exn : string).
Arguments Return {A} a.
Arguments Throw {A} exn.

(** Running a piece of handler code from a state yields the state reached,
    the effects issued in program order, and either a value or the exception
    that escaped. *)
Definition M (A : Type) : Type := State -> State * list Effect * Completion A.
Definition Handler : Type := M unit.

Definition ret {A : Type} (a : A) : M A := fun st => (st, [], Return a).
Definition throw {A : Type} (exn : string) : M A := fun st => (st, [], Throw exn).

Definition bind {A B : Type} (c : M A) (f : A -> M B) : M B := fun st =>
  match c st with
  | (st1, e1, Return a) =>
      match f a st1 with (st2, e2, r) => (st2, (e1 ++ e2)%list, r) end
  | (st1, e1, Throw exn) => (st1, e1, Throw exn)
  end.

Notation "x <- c ;; f" := (bind c (fun x => f))
  (at level 61, c at next level, right associativity).
Notation "c ;; f" := (bind c (fun _ => f))
  (at level 61, right associativity).

Definition skip : Handler := ret tt.
Definition get {A : Type} (f : State -> A) : M A := fun st => (st, [], Return (f st)).
Definition modify (f : State -> State) : Handler := fun st => (f st, [], Return tt).
Definition emit (e : Effect) : Handler := fun st => (st, [e], Return tt).

(** [try { body } catch (exn) { handler }] *)
Definition try_catch (body : Handler) (handler : string -> Handler) : Handler := fun st =>
  match body st with
  | (st1, e1, Return a) => (st1, e1, Return a)
  | (st1, e1, Throw exn) =>
      match handler exn st1 with (st2, e2, r) => (st2, (e1 ++ e2)%list, r) end
  end.

(** [processingRef.current = value] *)
Definition write_processingRef (value : bool) : Handler :=
  modify (set_processingRef value) ;; emit (GateWrite value).

Definition setConnectionState (f : ConnectionState -> ConnectionState) : Handler :=
  modify (fun st => set_connectionState (f (connectionState st)) st).

Definition setStreamState (f : StreamState -> StreamState) : Handler :=
  modify (fun st => set_streamState (f (streamState st)) st).

Definition setSessionStats (f : SessionStats -> SessionStats) : Handler :=
  modify (fun st => set_sessionStats (f (sessionStats st)) st).

Definition setPerformanceMetrics (f : list (string * Q) -> list (string * Q)) : Handler :=
  modify (fun st => set_performanceMetrics (f (performanceMetrics st)) st).

(** [addLog]: the feed keeps the last seven entries and the new one. *)
Definition addLog (message : string) (category : Category) : Handler :=
  modify (fun st =>
    set_logs (slice_last 7 (logs st)
              ++ [{| log_category := category; log_message := message |}])%list st) ;;
  emit (ConsoleLog category message).

Definition socket_readyState (st : State) (i : nat) : option ReadyState :=
  option_map readyState (nth_error (sockets st) i).

(** [wsRef.current?.readyState === WebSocket.OPEN] *)
Definition wsRef_is_OPEN (st : State) : bool :=
  match wsRef st with
  | Some i =>
      match socket_readyState st i with
      | Some OPEN => true
      | _ => false
      end
  | None => false
  end.

Definition engine_url : string := "ws://localhost:8000/ws".
Definition reconnect_delay : Z := 3000.

(** [connectWebSocket], as created by a render whose [streamState.isStreaming]
    is [captured_isStreaming]. *)
Definition connectWebSocket (captured_isStreaming : bool) : Handler :=
  open <- get wsRef_is_OPEN ;;
  if (open : bool) then skip
  else
    setConnectionState (fun prev =>
      {| isConnected := isConnected prev; isConnecting := true;
         reconnectCount := reconnectCount prev;
         serverVersion := serverVersion prev; serverLoad := serverLoad prev |}) ;;
    addLog "Connecting to VirtualStage Engine..." info ;;
    emit (NewWebSocket engine_url) ;;
    modify (fun st =>
      set_wsRef (Some (List.length (sockets st)))
        (set_sockets
           (sockets st ++ [{| readyState := CONNECTING;
                              closure_isStreaming := captured_isStreaming |}])%list
           st)).

(** [ws.onopen] *)
Definition onopen : Handler :=
  setConnectionState (fun _ =>
    {| isConnected := true; isConnecting := false; reconnectCount := 0;
       serverVersion := "v3.2.0"; serverLoad := 0 |}) ;;
  addLog "VirtualStage Engine connected successfully" success.

Definition truthy_string (o : option string) : bool :=
  match o with
  | Some s => negb (String.eqb s "")
  | None => false
  end.

Definition truthy_number (o : option Z) : bool :=
  match o with
  | Some z => negb (z =? 0)%Z
  | None => false
  end.

Definition is_some {A : Type} (o : option A) : bool :=
  match o with Some _ => true | None => false end.

(** [handleWebSocketMessage]; the image of a processed frame loads later, its
    [onload] handler is [img_onload] below. *)
Definition handleWebSocketMessage (data : JSON) : Handler :=
  emit (Received data) ;;
  match data with
  | JNull => throw "TypeError: Cannot read properties of null (reading 'type')"
  | JOther => skip
  | JObject o =>
      if String.eqb (msg_type o) "processed_frame" then
        canvas <- get canvasRef ;;
        if is_some canvas && truthy_string (msg_data o) then
          modify (fun st =>
            set_images (images st ++ [{| image_timestamp := msg_timestamp o |}])%list st)
        else skip
      else if String.eqb (msg_type o) "background_changed" then
        addLog ("Background switched to: " ++ msg_background o) success
      else if String.eqb (msg_type o) "error" then
        addLog ("Engine Error: " ++ msg_message o) error
      else if String.eqb (msg_type o) "performance_update" then
        setPerformanceMetrics (fun prev => (msg_metrics o ++ prev)%list)
      else skip
  end.

(** What the browser supplies when an image has been decoded. *)
Record LoadEnv := {
  img_width : Z;
  img_height : Z;
  canvas_context : bool;     (* canvas.getContext("2d") is not null *)
  load_now : Z               (* Date.now() *)
}.

(** [img.onload] of the image created for a processed frame. *)
Definition img_onload (img : Image) (env : LoadEnv) : Handler :=
  canvas <- get canvasRef ;;
  (if is_some canvas && canvas_context env then
     modify (set_canvasRef (Some {| width := img_width env; height := img_height env |}))
   else skip) ;;
  write_processingRef false ;;
  setSessionStats (fun prev =>
    {| startTime := startTime prev; processedFrames := processedFrames prev + 1 |}) ;;
  if truthy_number (image_timestamp img) then
    let latency := (load_now env - match image_timestamp img with Some t => t | None => 0 end)%Z in
    modify (set_latencyRef latency) ;;
    setStreamState (fun prev =>
      {| isStreaming := isStreaming prev; isProcessing := isProcessing prev;
         fps := fps prev; latency := latency; quality := quality prev;
         bitrate := bitrate prev |})
  else skip.

Section Parser.

(** [JSON.parse] is the platform's; the handlers are stated for any parser. *)
Variable JSON_parse : string -> ParseResult.

(** [ws.onmessage] *)
Definition onmessage (raw : string) : Handler :=
  try_catch
    (match JSON_parse raw with
     | Parsed data => handleWebSocketMessage data
     | SyntaxError exn => throw exn
     end)
    (fun exn => addLog ("Message parsing failed: " ++ exn) error).

End Parser.

(** [ws.onclose] of the socket [ws]. *)
Definition onclose (ws : WebSocket) : Handler :=
  setConnectionState (fun prev =>
    {| isConnected := false; isConnecting := false;
       reconnectCount := reconnectCount prev;
       serverVersion := serverVersion prev; serverLoad := serverLoad prev |}) ;;
  addLog "Engine connection lost" warning ;;
  if closure_isStreaming ws then
    emit (SetTimeout reconnect_delay) ;;
    modify (fun st =>
      set_timers (timers st ++ [{| delay := reconnect_delay;
                                   timer_closure_isStreaming := closure_isStreaming ws |}])%list
                 st)
  else skip.

(** The callback of the [setTimeout] in [ws.onclose]. *)
Definition reconnect_timeout (t : Timer) : Handler :=
  setConnectionState (fun prev =>
    {| isConnected := isConnected prev; isConnecting := isConnecting prev;
       reconnectCount := reconnectCount prev + 1;
       serverVersion := serverVersion prev; serverLoad := serverLoad prev |}) ;;
  connectWebSocket (timer_closure_isStreaming t).

(** [ws.onerror] *)
Definition onerror : Handler :=
  addLog "Failed to connect to engine (localhost:8000)" error ;;
  setConnectionState (fun prev =>
    {| isConnected := false; isConnecting := false;
       reconnectCount := reconnectCount prev;
       serverVersion := serverVersion prev; serverLoad := serverLoad prev |}).

(** *** Capture-transmit loop *)

Record Video := { video_readyState : Z; videoWidth : Z; videoHeight : Z }.

(** What the browser supplies during one capture cycle. *)
Record CaptureEnv := {
  video : option Video;             (* videoRef.current *)
  temp_context : bool;              (* tempCanvas.getContext("2d") is not null *)
  capture_exn : option string;      (* exception of drawImage or toDataURL *)
  toDataURL : Q -> string;          (* tempCanvas.toDataURL("image/jpeg", q) *)
  capture_now : Z;                  (* Date.now() *)
  send_exn : option string          (* exception of WebSocket.send *)
}.

(** The values [sendFrameToBackend] closes over. *)
Record SendClosure := {
  backgroundSettings : BackgroundSettings;
  closure_currentTier : string
}.

Definition jpeg_quality (q : string) : Q :=
  if String.eqb q "ultra" then 95 # 100
  else if String.eqb q "high" then 85 # 100
  else 7 # 10.

(** [frameData.split(',')[1]] *)
Definition split_comma_1 (frameData : string) : option string :=
  match snd (split_on "," frameData) with
  | Some rest => Some (fst (split_on "," rest))
  | None => None
  end.

Definition sendFrameToBackend (cl : SendClosure) (env : CaptureEnv) : Handler := fun st =>
  match wsRef st, video env with
  | Some socket, Some v =>
      if negb (wsRef_is_OPEN st) || processingRef st then skip st
      else if negb (video_readyState v =? 4)%Z then skip st
      else
        try_catch
          (if negb (temp_context env) then skip
           else
             match capture_exn env with
             | Some exn => throw exn
             | None =>
                 let frameData :=
                   toDataURL env (jpeg_quality (background_quality (backgroundSettings cl))) in
                 write_processingRef true ;;
                 let message :=
                   {| frame_data := split_comma_1 frameData;
                      frame_timestamp := capture_now env;
                      frame_background := background_type (backgroundSettings cl);
                      frame_quality := background_quality (backgroundSettings cl);
                      frame_edgeSmoothing := edgeSmoothing (backgroundSettings cl);
                      frame_tier := closure_currentTier cl |} in
                 match send_exn env with
                 | Some exn => throw exn
                 | None => emit (WsSend socket message)
                 end
             end)
          (fun exn =>
             addLog ("Frame processing error: " ++ exn) error ;;
             write_processingRef false)
          st
  | _, _ => skip st
  end.

(** The values the [loop] of [startProcessingLoop] closes over. *)
Record LoopClosure := {
  loop_isStreaming : bool;
  loop_isConnected : bool;
  loop_send : SendClosure
}.

(** One run of [loop] at [performance.now() = now]; the request for the next
    animation frame is left to the environment. *)
Definition loop (cl : LoopClosure) (env : CaptureEnv) (now : Q) : Handler :=
  if loop_isStreaming cl && loop_isConnected cl then
    sendFrameToBackend (loop_send cl) env ;;
    modify (fun st =>
      set_fpsCounterRef
        {| lastTime := lastTime (fpsCounterRef st);
           frameCount := (frameCount (fpsCounterRef st) + 1)%Z |} st) ;;
    c <- get fpsCounterRef ;;
    if Qle_bool 1000 (now - lastTime c) then
      let fps' := Math_round (inject_Z (frameCount c * 1000) / (now - lastTime c)) in
      setStreamState (fun prev =>
        {| isStreaming := isStreaming prev; isProcessing := isProcessing prev;
           fps := fps'; latency := latency prev; quality := quality prev;
           bitrate := inject_Z fps' * (25 # 10) |}) ;;
      modify (set_fpsCounterRef {| lastTime := now; frameCount := 0 |})
    else skip
  else skip.

(** *** Starting and stopping the session *)

Record SubscriptionTier := {
  tier_id : string;
  maxResolution : string;
  customBackgrounds : Z
}.

Definition subscriptionTiers : list SubscriptionTier :=
  [ {| tier_id := "free"; maxResolution := "HD"; customBackgrounds := 3 |};
    {| tier_id := "pro"; maxResolution := "4K"; customBackgrounds := 25 |};
    {| tier_id := "enterprise"; maxResolution := "8K"; customBackgrounds := -1 |} ].

(** [checkTierLimits(action)] with the [currentTier] and
    [backgroundSettings.type] of its closure. *)
Definition checkTierLimits (action tier_name bg_type : string) : M bool :=
  match find (fun t => String.eqb (tier_id t) tier_name) subscriptionTiers with
  | None => ret false
  | Some tier =>
      if String.eqb action "4k"
         && negb (String.eqb (maxResolution tier) "4K")
         && negb (String.eqb (maxResolution tier) "8K") then
        modify (set_showUpgrade true) ;;
        addLog "4K resolution requires Pro subscription" warning ;;
        ret false
      else if String.eqb action "custom_bg"
              && negb (customBackgrounds tier =? -1)%Z
              && String.eqb bg_type "custom" then
        modify (set_showUpgrade true) ;;
        addLog "Custom backgrounds limit reached" warning ;;
        ret false
      else ret true
  end.

Inductive MediaResult :=
| MediaStream                      (* getUserMedia and play succeeded *)
| MediaError (message : string)    (* one of them rejected *)
| NoVideoElement.                  (* videoRef.current is null *)

Record StartEnv := {
  media : MediaResult;
  start_bg_type : string;          (* backgroundSettings.type of the closure *)
  start_performance_now : Q;
  start_date_now : Z
}.

Definition quality_name (q : Quality) : string :=
  match q with Q4K => "4K" | QHD => "HD" | QSD => "SD" end.

(** [startCamera].  It runs with the closures of the render in which the
    button was pressed: [streamState.quality], and the [connectWebSocket] of
    that render, which captured the [streamState.isStreaming] of that render;
    [setStreamState] does not change what these closures hold.  The awaits
    on the camera are taken together with the rest of the body. *)
Definition startCamera (env : StartEnv) : Handler := fun st =>
  let captured_quality := quality (streamState st) in
  let captured_isStreaming := isStreaming (streamState st) in
  let captured_tier := currentTier st in
  try_catch
    (addLog "Initializing professional camera stream..." info ;;
     allowed <-
       match captured_quality with
       | Q4K => checkTierLimits "4k" captured_tier (start_bg_type env)
       | _ => ret true
       end ;;
     if negb allowed then skip
     else
       match media env with
       | MediaError exn => throw exn
       | NoVideoElement => skip
       | MediaStream =>
           setStreamState (fun prev =>
             {| isStreaming := true; isProcessing := true; fps := fps prev;
                latency := latency prev; quality := quality prev;
                bitrate := bitrate prev |}) ;;
           connectWebSocket captured_isStreaming ;;
           modify (set_fpsCounterRef
                     {| lastTime := start_performance_now env; frameCount := 0 |}) ;;
           modify (set_sessionStats
                     {| startTime := start_date_now env; processedFrames := 0 |}) ;;
           addLog (quality_name captured_quality ++ " stream started successfully") success
       end)
    (fun exn => addLog ("Camera initialization failed: " ++ exn) error)
    st.

(** [ws.close()]: an open or connecting socket starts closing. *)
Definition close_socket (i : nat) (l : list WebSocket) : list WebSocket :=
  match nth_error l i with
  | Some ws =>
      match readyState ws with
      | CONNECTING | OPEN =>
          (firstn i l
           ++ {| readyState := CLOSING; closure_isStreaming := closure_isStreaming ws |}
           :: skipn (S i) l)%list
      | _ => l
      end
  | None => l
  end.

Definition ws_close (i : nat) : Handler :=
  emit (WsClose i) ;;
  modify (fun st => set_sockets (close_socket i (sockets st)) st).

(** [stopCamera] *)
Definition stopCamera (date_now : Z) : Handler := fun st =>
  let captured_quality := quality (streamState st) in
  (addLog "Stopping studio session..." info ;;
   (match wsRef st with
    | Some i => ws_close i
    | None => skip
    end) ;;
   write_processingRef false ;;
   modify (set_streamState
             {| isStreaming := false; isProcessing := false; fps := 0; latency := 0;
                quality := captured_quality; bitrate := 0 |}) ;;
   modify (set_sessionStats {| startTime := date_now; processedFrames := 0 |}) ;;
   addLog "Studio session ended successfully" success)
    st.

(** *** The event loop *)

Inductive Event :=
| ClickStart (env : StartEnv)
| ClickStop (date_now : Z)
| ClickConnectEngine
| ClickReconnectEngine
| SocketOpen (socket : nat)
| SocketMessage (socket : nat) (raw : string)
| SocketError (socket : nat)
| SocketClose (socket : nat)
| TimerFires
| ImageLoad (index : nat) (env : LoadEnv)
| ImageError (index : nat)
| AnimationFrame (cl : LoopClosure) (env : CaptureEnv) (now : Q).

Definition set_readyState (i : nat) (r : ReadyState) (l : list WebSocket) : list WebSocket :=
  match nth_error l i with
  | Some ws =>
      (firstn i l
       ++ {| readyState := r; closure_isStreaming := closure_isStreaming ws |}
       :: skipn (S i) l)%list
  | None => l
  end.

Definition remove_nth {A : Type} (i : nat) (l : list A) : list A :=
  (firstn i l ++ skipn (S i) l)%list.

Section EventLoop.

Variable JSON_parse : string -> ParseResult.

(** The callback the browser runs for an event, after the change of the
    socket's [readyState] that the event stands for.  An event whose source
    does not exist or is in the wrong state does not occur. *)
Definition dispatch (e : Event) : Handler := fun st =>
  match e with
  | ClickStart env => startCamera env st
  | ClickStop now => stopCamera now st
  | ClickConnectEngine =>
      (* the button is rendered when neither connected nor connecting *)
      if negb (isConnected (connectionState st))
         && negb (isConnecting (connectionState st)) then
        connectWebSocket (isStreaming (streamState st)) st
      else skip st
  | ClickReconnectEngine =>
      ((if wsRef_is_OPEN st then
          match wsRef st with Some i => ws_close i | None => skip end
        else skip) ;;
       connectWebSocket (isStreaming (streamState st))) st
  | SocketOpen i =>
      match socket_readyState st i with
      | Some CONNECTING =>
          (modify (fun s => set_sockets (set_readyState i OPEN (sockets s)) s) ;;
           onopen) st
      | _ => skip st
      end
  | SocketMessage i raw =>
      match socket_readyState st i with
      | Some OPEN => onmessage JSON_parse raw st
      | _ => skip st
      end
  | SocketError i =>
      match socket_readyState st i with
      | Some CONNECTING | Some OPEN | Some CLOSING => onerror st
      | _ => skip st
      end
  | SocketClose i =>
      match nth_error (sockets st) i with
      | Some ws =>
          match readyState ws with
          | CLOSED => skip st
          | _ =>
              (modify (fun s => set_sockets (set_readyState i CLOSED (sockets s)) s) ;;
               onclose ws) st
          end
      | None => skip st
      end
  | TimerFires =>
      match timers st with
      | t :: rest => (modify (set_timers rest) ;; reconnect_timeout t) st
      | [] => skip st
      end
  | ImageLoad i env =>
      match nth_error (images st) i with
      | Some img =>
          (modify (fun s => set_images (remove_nth i (images s)) s) ;;
           img_onload img env) st
      | None => skip st
      end
  | ImageError i =>
      modify (fun s => set_images (remove_nth i (images s)) s) st
  | AnimationFrame cl env now => loop cl env now st
  end.

(** One turn of the event loop: an exception that escapes the callback is
    reported by the browser and the state reached stays. *)
Definition step (st : State) (e : Event) : State * list Effect :=
  fst (dispatch e st).

Fixpoint run (st : State) (es : list Event) : State * list Effect :=
  match es with
  | [] => (st, [])
  | e :: es' =>
      let (st1, t1) := step st e in
      let (st2, t2) := run st1 es' in
      (st2, (t1 ++ t2)%list)
  end.

End EventLoop.

Definition initialState : State :=
  {| sockets := []; wsRef := None; processingRef := false; latencyRef := 0;
     fpsCounterRef := {| lastTime := 0; frameCount := 0 |};
     canvasRef := Some {| width := 300; height := 150 |};
     streamState :=
       {| isStreaming := false; isProcessing := false; fps := 0; latency := 0;
          quality := QHD; bitrate := 0 |};
     connectionState :=
       {| isConnected := false; isConnecting := false; reconnectCount := 0;
          serverVersion := "v3.2.0"; serverLoad := 0 |};
     performanceMetrics := [];
     logs := [];
     sessionStats := {| startTime := 0; processedFrames := 0 |};
     showUpgrade := false;
     currentTier := "free";
     timers := [];
     images := [] |}.

(** *** Frames in flight *)

Definition is_processed_frame (data : JSON) : bool :=
  match data with
  | JObject o => String.eqb (msg_type o) "processed_frame"
  | _ => false
  end.

(** The number of sends not yet followed by a processed-frame reply or a
    clearing of the gate, after one more effect. *)
Definition count_step (n : nat) (e : Effect) : nat :=
  match e with
  | WsSend _ _ => S n
  | GateWrite false => 0
  | Received data => if is_processed_frame data then 0 else n
  | _ => n
  end.

Definition in_flight (trace : list Effect) : nat := fold_left count_step trace 0%nat.

(** The largest count reached along a trace that starts with [n] sends
    outstanding. *)
Fixpoint peak (trace : list Effect) (n : nat) : nat :=
  match trace with
  | [] => n
  | e :: trace' => Nat.max n (peak trace' (count_step n e))
  end.

(** *** Vocabulary of the properties of the gate *)

(** An effect that neither transmits nor writes the gate. *)
Definition quiet_effect (e : Effect) : Prop :=
  match e with
  | WsSend _ _ | GateWrite _ => False
  | _ => True
  end.

(** Handler code that leaves the gate alone and transmits nothing. *)
Definition quiet {A : Type} (c : M A) : Prop :=
  forall st : State,
    match c st with
    | (st', effs, _) => processingRef st' = processingRef st /\ Forall quiet_effect effs
    end.

(** The gate and the count agree: at most one send is outstanding, and none
    when the gate is clear. *)
Definition gate_inv (st : State) (n : nat) : Prop :=
  (n <= 1)%nat /\ (processingRef st = false -> n = 0%nat).

(** An outcome that kept [gate_inv] at every point of its trace, from a
    count of [n]. *)
Definition keeps_gate {A : Type} (n : nat) (o : State * list Effect * Completion A)
  : Prop :=
  match o with
  | (st', effs, _) =>
      (peak effs n <= 1)%nat /\ gate_inv st' (fold_left count_step effs n)
  end.

(** Handler code that keeps [gate_inv]. *)
Definition gate_safe {A : Type} (c : M A) : Prop :=
  forall (st : State) (n : nat), gate_inv st n -> keeps_gate n (c st).

(** *** Stand-ins used to run scenarios *)

(** A parser given by a table of the payloads it accepts. *)
Fixpoint parse_by_table (table : list (string * JSON)) (raw : string) : ParseResult :=
  match table with
  | [] => SyntaxError "SyntaxError: Unexpected token"
  | (s, v) :: table' => if String.eqb raw s then Parsed v else parse_by_table table' raw
  end.

Definition start_env : StartEnv :=
  {| media := MediaStream; start_bg_type := "blur";
     start_performance_now := 0; start_date_now := 1700000000000 |}.

Definition reply : Inbound :=
  {| msg_type := "processed_frame"; msg_data := Some "/9j/4AAQSkZJRg==";
     msg_timestamp := Some 1700000000100%Z; msg_background := "";
     msg_message := ""; msg_metrics := [] |}.

Definition demo_parse : string -> ParseResult :=
  parse_by_table [("{type:processed_frame}", JObject reply)].

Definition capture_env : CaptureEnv :=
  {| video := Some {| video_readyState := 4; videoWidth := 1920; videoHeight := 1080 |};
     temp_context := true;
     capture_exn := None;
     toDataURL := fun _ => "data:image/jpeg;base64,/9j/4AAQSkZJRg==";
     capture_now := 1700000000100;
     send_exn := None |}.

Definition loop_closure : LoopClosure :=
  {| loop_isStreaming := true; loop_isConnected := true;
     loop_send :=
       {| backgroundSettings :=
            {| background_type := "blur"; background_quality := "ultra";
               edgeSmoothing := 85 |};
          closure_currentTier := "free" |} |}.

Definition load_env : LoadEnv :=
  {| img_width := 1920; img_height := 1080; canvas_context := true;
     load_now := 1700000000180 |}.

(** A session: start, the socket opens, a frame is sent, two cycles pass
    while it is in flight, the reply arrives and its image loads, the next
    frame is sent. *)
Definition demo_session : list Event :=
  [ ClickStart start_env; SocketOpen 0;
    AnimationFrame loop_closure capture_env 1016;
    AnimationFrame loop_closure capture_env 1033;
    AnimationFrame loop_closure capture_env 1050;
    SocketMessage 0 "{type:processed_frame}";
    ImageLoad 0 load_env;
    AnimationFrame loop_closure capture_env 1066 ].

End Home.

(* ------------------------------------------------------------------ *)
(** ** What the components display *)

Module View.

Import Recording.







(** The leading decimal digits of a text, and what follows them. *)
Fixpoint take_digits (s : string) : string * string :=
  match s with
  | EmptyString => (EmptyString, EmptyString)
  | String a s' =>
      if is_digit a then let (d, rest) := take_digits s' in (String a d, rest)
      else (EmptyString, s)
  end.

(** The fraction digits that follow the integer digits, if a point does. *)
Definition after_point (rest : string) : string :=
  match rest with
  | String a r => if Ascii.eqb a "." then fst (take_digits r) else EmptyString
  | EmptyString => EmptyString
  end.

Definition digits_value (d : string) : Q :=
  match parse_digits d with
  | Some z => inject_Z z
  | None => 0
  end.

Definition fraction_value (f : string) : Q :=
  match parse_fraction f with
  | Some q => q
  | None => 0
  end.

(** [parseFloat] on a text that starts with an unsigned decimal numeral
    without exponent: the longest such prefix is read and the rest is
    ignored; [None] stands for [NaN]. *)
Definition parseFloat_prefix (s : string) : option Q :=
  let (ip, rest) := take_digits s in
  let fp := after_point rest in
  match ip, fp with
  | EmptyString, EmptyString => None
  | _, _ => Some (digits_value ip + fraction_value fp)%Q
  end.

(** [recordings.reduce((total, r) => total + parseFloat(r.size), 0)], the
    sum of "Storage Used" before it is formatted; a [NaN] stays. *)
Definition storage_total (recordings : list RecordingEntry) : option Q :=
  fold_left
    (fun total r =>
       match total, parseFloat_prefix (size r) with
       | Some t, Some v => Some (t + v)%Q
       | _, _ => None
       end)
    recordings (Some 0%Q).

(** The width of the storage bar, in percent:
    [Math.min((recordings.length / 10) * 100, 100)]. *)
Definition storageBarWidth (recordings : list RecordingEntry) : Q :=
  Qmin (inject_Z (Z.of_nat (List.length recordings)) / 10 * 100) 100.

(** The insights of the dashboard: [performanceScore >= 90] and
    [performanceScore < 70]. *)
Definition insight_excellent (score : Q) : bool := Qle_bool 90 score.
Definition insight_reduce_quality (score : Q) : bool := negb (Qle_bool 70 score).

(** One sample is at least as good as another. *)
Definition no_worse (a b : Telemetry.PerformanceData) : Prop :=
  (Telemetry.fps a <= Telemetry.fps b /\
   Telemetry.latency b <= Telemetry.latency a /\
   Telemetry.cpuUsage b <= Telemetry.cpuUsage a)%Q.

(** Every chunk kept in the buffer has a positive size. *)
Definition chunks_positive (st : Studio) : Prop :=
  Forall (fun b => (0 < blob_size b)%Z) (recordedChunksRef st).

Definition is_recorder_stop (e : StudioEvent) : bool :=
  match e with
  | RecorderStop _ => true
  | _ => false
  end.

(** An entry of the catalog with a given size text. *)
Definition entry_of_size (text : string) : RecordingEntry :=
  {| id := "0"; name := "Recording_"; duration := 0; size := text;
     timestamp := 0; thumbnail := "" |}.

End View.

(* ------------------------------------------------------------------ *)
(** ** The AI features panel *)

Module AIFeatures.

Record Features := {
  gestureControl : bool;
  poseEstimation : bool;
  emotionDetection : bool;
  virtualLighting : bool;
  autoBackground : bool;
  smartCropping : bool
}.

(** [keyof typeof features] *)
Inductive FeatureKey :=
| GestureControl | PoseEstimation | EmotionDetection
| VirtualLighting | AutoBackground | SmartCropping.

Definition feature (f : Features) (key : FeatureKey) : bool :=
  match key with
  | GestureControl => gestureControl f
  | PoseEstimation => poseEstimation f
  | EmotionDetection => emotionDetection f
  | VirtualLighting => virtualLighting f
  | AutoBackground => autoBackground f
  | SmartCropping => smartCropping f
  end.

(** [toggleFeature]: [{...prev, [feature]: !prev[feature]}] *)
Definition toggleFeature (key : FeatureKey) (prev : Features) : Features :=
  match key with
  | GestureControl =>
      {| gestureControl := negb (gestureControl prev);
         poseEstimation := poseEstimation prev;
         emotionDetection := emotionDetection prev;
         virtualLighting := virtualLighting prev;
         autoBackground := autoBackground prev;
         smartCropping := smartCropping prev |}
  | PoseEstimation =>
      {| gestureControl := gestureControl prev;
         poseEstimation := negb (poseEstimation prev);
         emotionDetection := emotionDetection prev;
         virtualLighting := virtualLighting prev;
         autoBackground := autoBackground prev;
         smartCropping := smartCropping prev |}
  | EmotionDetection =>
      {| gestureControl := gestureControl prev;
         poseEstimation := poseEstimation prev;
         emotionDetection := negb (emotionDetection prev);
         virtualLighting := virtualLighting prev;
         autoBackground := autoBackground prev;
         smartCropping := smartCropping prev |}
  | VirtualLighting =>
      {| gestureControl := gestureControl prev;
         poseEstimation := poseEstimation prev;
         emotionDetection := emotionDetection prev;
         virtualLighting := negb (virtualLighting prev);
         autoBackground := autoBackground prev;
         smartCropping := smartCropping prev |}
  | AutoBackground =>
      {| gestureControl := gestureControl prev;
         poseEstimation := poseEstimation prev;
         emotionDetection := emotionDetection prev;
         virtualLighting := virtualLighting prev;
         autoBackground := negb (autoBackground prev);
         smartCropping := smartCropping prev |}
  | SmartCropping =>
      {| gestureControl := gestureControl prev;
         poseEstimation := poseEstimation prev;
         emotionDetection := emotionDetection prev;
         virtualLighting := virtualLighting prev;
         autoBackground := autoBackground prev;
         smartCropping := negb (smartCropping prev) |}
  end.

Record Panel := {
  features : Features;
  gestureHistory : list string;
  emotionHistory : list string
}.

(** The calls made on the properties of the component. *)
Inductive Callback :=
| OnGestureDetected (gesture : string)
| OnEmotionDetected (emotion : string).

(** [handleGesture]: the history keeps its last four entries and the new
    one, and the gesture is passed on. *)
Definition handleGesture (gesture : string) (st : Panel) : Panel * list Callback :=
  ({| features := features st;
      gestureHistory := (slice_last 4 (gestureHistory st) ++ [gesture])%list;
      emotionHistory := emotionHistory st |},
   [OnGestureDetected gesture]).

Definition handleEmotion (emotion : string) (st : Panel) : Panel * list Callback :=
  ({| features := features st;
      gestureHistory := gestureHistory st;
      emotionHistory := (slice_last 4 (emotionHistory st) ++ [emotion])%list |},
   [OnEmotionDetected emotion]).

(** The gestures of a list handled in order. *)
Fixpoint handleGestures (gestures : list string) (st : Panel) : Panel * list Callback :=
  match gestures with
  | [] => (st, [])
  | g :: gestures' =>
      let (st1, c1) := handleGesture g st in
      let (st2, c2) := handleGestures gestures' st1 in
      (st2, (c1 ++ c2)%list)
  end.

Definition initialPanel : Panel :=
  {| features :=
       {| gestureControl := false; poseEstimation := false;
          emotionDetection := false; virtualLighting := false;
          autoBackground := false; smartCropping := false |};
     gestureHistory := [];
     emotionHistory := [] |}.

End AIFeatures.

(* ------------------------------------------------------------------ *)
(** ** Vocabulary of further properties of the Home component *)

Module HomeMore.

Import Home.

(** The state reached by handler code. *)
Definition state_after {A : Type} (o : State * list Effect * Completion A) : State :=
  fst (fst o).

Definition effects_of {A : Type} (o : State * list Effect * Completion A) : list Effect :=
  snd (fst o).

Definition completion_of {A : Type} (o : State * list Effect * Completion A)
  : Completion A := snd o.

(** Handler code that keeps a property of the state. *)
Definition preserves {A : Type} (P : State -> Prop) (c : M A) : Prop :=
  forall st : State, P st -> P (state_after (c st)).

(** Handler code whose effects all satisfy a property. *)
Definition emits_only {A : Type} (Q : Effect -> Prop) (c : M A) : Prop :=
  forall st : State, Forall Q (effects_of (c st)).

(** Handler code from which no exception escapes. *)
Definition never_throws (c : Handler) : Prop :=
  forall st : State, completion_of (c st) = Return tt.

Definition is_send (e : Effect) : Prop :=
  match e with WsSend _ _ => True | _ => False end.

Definition is_new_socket (e : Effect) : Prop :=
  match e with NewWebSocket _ => True | _ => False end.

(** The events whose handler clears the in-flight gate. *)
Definition clears_gate (e : Event) : bool :=
  match e with
  | ImageLoad _ _ | ClickStop _ => true
  | _ => false
  end.

Definition is_socket_open (e : Event) : bool :=
  match e with
  | SocketOpen _ => true
  | _ => false
  end.

(** One failed reconnect: the timer fires, and the socket it creates
    reports an error and closes. *)
Definition failed_attempt (st : State) : list Event :=
  [ TimerFires;
    SocketError (List.length (sockets st));
    SocketClose (List.length (sockets st)) ].

Fixpoint failed_attempts (JSON_parse : string -> ParseResult) (n : nat) (st : State)
  : State :=
  match n with
  | O => st
  | S n' =>
      failed_attempts JSON_parse n' (fst (run JSON_parse st (failed_attempt st)))
  end.

Definition captured_streaming (t : Timer) : Prop :=
  timer_closure_isStreaming t = true /\ delay t = 3000%Z.

(** A state in which a reconnect is pending and the current socket is not
    open. *)
Definition retrying (st : State) : Prop :=
  wsRef_is_OPEN st = false /\
  timers st <> [] /\
  Forall captured_streaming (timers st).

(** The state in which [ws.onclose] of a socket created while streaming has
    just run after [stopCamera]: the second scenario of the reconnect. *)
Definition stopped_with_reconnect_pending : State :=
  fst (run demo_parse initialState
         [ClickStart start_env; SocketError 0; SocketClose 0;
          ClickConnectEngine; SocketOpen 1; ClickStop 1700000060000;
          SocketClose 1]).

(** The activity feed holds at most eight entries. *)
Definition logs_bounded (st : State) : Prop := (List.length (logs st) <= 8)%nat.

(** The streaming flag, the gate and the frame counter are those of [st0]. *)
Definition same_session (st0 st : State) : Prop :=
  isStreaming (streamState st) = isStreaming (streamState st0) /\
  processingRef st = processingRef st0 /\
  processedFrames (sessionStats st) = processedFrames (sessionStats st0).

(** The current socket, if any, is not open. *)
Definition not_open (st : State) : Prop := wsRef_is_OPEN st = false.

Definition no_send (e : Effect) : Prop := ~ is_send e.

(** The streaming flag and the sockets are those of [st0]. *)
Definition not_started (st0 st : State) : Prop :=
  streamState st = streamState st0 /\
  sockets st = sockets st0 /\
  wsRef st = wsRef st0.

(** An outcome that left the gate set and neither transmitted nor wrote the
    gate. *)
Definition stays_gated {A : Type} (o : State * list Effect * Completion A) : Prop :=
  processingRef (state_after o) = true /\ Forall quiet_effect (effects_of o).

(** An outcome that left the current socket not open and transmitted
    nothing. *)
Definition stays_closed {A : Type} (o : State * list Effect * Completion A) : Prop :=
  not_open (state_after o) /\ Forall no_send (effects_of o).

(** The prefix of the data URL of a JPEG. *)
Definition jpeg_data_url_prefix : string := "data:image/jpeg;base64".

End HomeMore.

(* ================================================================== *)
(** * Properties *)

(** ** Lists *)

Lemma slice_last_length {A : Type} (n : nat) (l : list A) :
  List.length (slice_last n l) = Nat.min n (List.length l).
Proof.
  unfold slice_last. rewrite length_skipn. lia.
Qed.

Lemma slice_last_incl {A : Type} (n : nat) (l : list A) (P : A -> Prop) :
  Forall P l -> Forall P (slice_last n l).
Proof.
  intros H. apply Forall_forall. intros x Hx.
  rewrite Forall_forall in H. apply H.
  unfold slice_last in Hx.
  rewrite <- (firstn_skipn (List.length l - n) l).
  apply in_or_app. now right.
Qed.

Lemma slice_last_all {A : Type} (n : nat) (l : list A) :
  (List.length l <= n)%nat -> slice_last n l = l.
Proof.
  intros H. unfold slice_last.
  replace (List.length l - n)%nat with 0%nat by lia. reflexivity.
Qed.

(** ** Telemetry: score and grade *)

Module TelemetryFacts.

Import Telemetry.
Local Open Scope Q_scope.

Lemma fold_sum_shift (f : PerformanceData -> Q) (l : list PerformanceData) (a : Q) :
  fold_left (fun sum d => sum + f d) l a == a + reduce_sum f l.
Proof.
  unfold reduce_sum. revert a.
  induction l as [|d l IH]; intros a; cbn [fold_left].
  - lra.
  - rewrite (IH (a + f d)), (IH (0 + f d)). lra.
Qed.

Lemma reduce_sum_cons (f : PerformanceData -> Q) (d : PerformanceData) (l : list PerformanceData) :
  reduce_sum f (d :: l) == f d + reduce_sum f l.
Proof.
  unfold reduce_sum at 1. cbn [fold_left]. rewrite fold_sum_shift. lra.
Qed.

Lemma reduce_sum_const (f : PerformanceData -> Q) (c : Q) (l : list PerformanceData) :
  Forall (fun d => f d == c) l ->
  reduce_sum f l == c * inject_Z (Z.of_nat (List.length l)).
Proof.
  induction 1 as [|d l Hd _ IH].
  - unfold reduce_sum. cbn [fold_left List.length Z.of_nat].
    change (inject_Z 0) with 0. lra.
  - rewrite reduce_sum_cons, IH, Hd.
    cbn [List.length]. rewrite Nat2Z.inj_succ. unfold Z.succ.
    rewrite inject_Z_plus. change (inject_Z 1) with 1. ring.
Qed.

Lemma reduce_sum_nonneg (f : PerformanceData -> Q) (l : list PerformanceData) :
  Forall (fun d => 0 <= f d) l -> 0 <= reduce_sum f l.
Proof.
  induction 1 as [|d l Hd _ IH].
  - unfold reduce_sum. cbn [fold_left]. lra.
  - rewrite reduce_sum_cons. lra.
Qed.

Lemma average_const (f : PerformanceData -> Q) (c : Q) (l : list PerformanceData) :
  l <> [] -> Forall (fun d => f d == c) l -> average f l == c.
Proof.
  intros Hne H. unfold average. rewrite (reduce_sum_const f c l H).
  assert (Hlen : ~ inject_Z (Z.of_nat (List.length l)) == 0).
  { destruct l as [|d l']; [congruence|].
    cbn [List.length]. rewrite Nat2Z.inj_succ. unfold Z.succ.
    rewrite inject_Z_plus.
    assert (0 <= inject_Z (Z.of_nat (List.length l'))).
    { change 0 with (inject_Z 0). rewrite <- Zle_Qle. lia. }
    change (inject_Z 1) with 1. lra. }
  field. exact Hlen.
Qed.

Lemma average_nonneg (f : PerformanceData -> Q) (l : list PerformanceData) :
  Forall (fun d => 0 <= f d) l -> 0 <= average f l.
Proof.
  intros H. unfold average.
  pose proof (reduce_sum_nonneg f l H) as Hs.
  assert (Hl : 0 <= inject_Z (Z.of_nat (List.length l))).
  { change 0 with (inject_Z 0). rewrite <- Zle_Qle. lia. }
  apply Qle_lteq in Hl. destruct Hl as [Hl | Hl].
  - apply Qle_shift_div_l; [exact Hl | lra].
  - rewrite <- Hl. unfold Qdiv, Qinv. simpl. lra.
Qed.

(** Samples without negative readings have non-negative window averages. *)
Lemma nonneg_samples_nonneg_averages (data : list PerformanceData) :
  Forall (fun d => 0 <= fps d /\ 0 <= latency d /\ 0 <= cpuUsage d) data ->
  0 <= avgFps (recent_window data) /\
  0 <= avgLatency (recent_window data) /\
  0 <= avgCpu (recent_window data).
Proof.
  intros H.
  assert (Hw := slice_last_incl 10 data _ H). fold (recent_window data) in Hw.
  unfold avgFps, avgLatency, avgCpu.
  repeat split; apply average_nonneg;
    (eapply Forall_impl; [|exact Hw]); cbv beta; intros d Hd; tauto.
Qed.

Lemma recent_window_nonempty (data : list PerformanceData) :
  data <> [] -> (0 < List.length (recent_window data))%nat.
Proof.
  intros Hne. unfold recent_window. rewrite slice_last_length.
  destruct data; [congruence | cbn [List.length]; lia].
Qed.

Lemma Math_round_bounds (x : Q) (lo hi : Z) :
  inject_Z lo <= x -> x <= inject_Z hi -> (lo <= Math_round x <= hi)%Z.
Proof.
  intros Hlo Hhi. unfold Math_round. split.
  - rewrite <- (Qfloor_Z lo). apply Qfloor_resp_le. lra.
  - assert (H : (Qfloor (x + (1 # 2)) <= Qfloor (inject_Z hi + (1 # 2)))%Z)
      by (apply Qfloor_resp_le; lra).
    assert (E : Qfloor (inject_Z hi + (1 # 2)) = hi).
    { unfold Qfloor, Qplus, inject_Z. cbn [Qnum Qden].
      change (Z.pos (1 * 2)) with 2%Z.
      replace (hi * 2 + 1 * 1)%Z with (1 + hi * 2)%Z by lia.
      rewrite Z.div_add by lia. reflexivity. }
    lia.
Qed.

Lemma fpsScore_range (recent : list PerformanceData) :
  0 <= avgFps recent -> 0 <= fpsScore recent <= 25.
Proof.
  intros H. unfold fpsScore, Math_min.
  assert (D : avgFps recent / 30 == avgFps recent * (1 # 30)) by field.
  destruct (Q.min_spec (avgFps recent / 30) 1) as [[L E] | [L E]];
    rewrite E; rewrite D in *; lra.
Qed.

Lemma penalty_range (avg : Q) :
  0 <= avg -> 0 <= Math_max 0 (1 - avg / 100) * 25 <= 25.
Proof.
  intros H. unfold Math_max.
  assert (D : avg / 100 == avg * (1 # 100)) by field.
  destruct (Q.max_spec 0 (1 - avg / 100)) as [[L E] | [L E]];
    rewrite E; rewrite D in *; lra.
Qed.

(** C4.  A window of ten samples that all read fps = 30, latency = 0 and
    cpuUsage = 0 scores exactly 100, and the dashboard grades that score
    "A+". *)
Theorem perfect_window_scores_100 (data : list PerformanceData) :
  List.length data = 10%nat ->
  Forall (fun d => fps d == 30 /\ latency d == 0 /\ cpuUsage d == 0) data ->
  getPerformanceScore data = 100%Z /\
  grade (getPerformanceGrade (inject_Z (getPerformanceScore data))) = "A+"%string.
Proof.
  intros Hlen Hall.
  assert (Hne : data <> []) by (intros ->; discriminate).
  assert (Hw : recent_window data = data)
    by (apply slice_last_all; rewrite Hlen; apply Nat.le_refl).
  assert (Hf : avgFps data == 30).
  { apply average_const; [exact Hne|].
    eapply Forall_impl; [|exact Hall]. cbv beta. tauto. }
  assert (Hl : avgLatency data == 0).
  { apply average_const; [exact Hne|].
    eapply Forall_impl; [|exact Hall]. cbv beta. tauto. }
  assert (Hc : avgCpu data == 0).
  { apply average_const; [exact Hne|].
    eapply Forall_impl; [|exact Hall]. cbv beta. tauto. }
  assert (Hscore : getPerformanceScore data = 100%Z).
  { destruct data as [|d data']; [congruence|].
    unfold getPerformanceScore. cbv zeta. rewrite Hw.
    unfold Math_round.
    assert (E : fpsScore (d :: data') + latencyScore (d :: data')
                + cpuScore (d :: data') + stabilityScore + (1 # 2) == 201 # 2).
    { unfold fpsScore, latencyScore, cpuScore, stabilityScore, Math_min, Math_max.
      rewrite Hf, Hl, Hc. reflexivity. }
    rewrite E. reflexivity. }
  split; [exact Hscore|]. rewrite Hscore. reflexivity.
Qed.

Lemma perfect_window_scores_100_witness :
  getPerformanceScore (repeat (sample 30 0 0) 10) = 100%Z /\
  grade (getPerformanceGrade
           (inject_Z (getPerformanceScore (repeat (sample 30 0 0) 10)))) = "A+"%string.
Proof.
  apply (perfect_window_scores_100 (repeat (sample 30 0 0) 10)).
  - reflexivity.
  - repeat constructor; reflexivity.
Defined.

(** C5, as the code has it.  When the window averages of fps, latency and
    cpuUsage are not negative, each of the four sub-scores lies in [0, 25]
    and the composite score lies in [0, 100]. *)
Theorem scores_in_range_of_nonneg_averages (data : list PerformanceData) :
  data <> [] ->
  0 <= avgFps (recent_window data) ->
  0 <= avgLatency (recent_window data) ->
  0 <= avgCpu (recent_window data) ->
  scores_in_range data.
Proof.
  intros Hne Hf Hl Hc. unfold scores_in_range. cbv zeta.
  pose proof (fpsScore_range _ Hf) as Bf.
  pose proof (penalty_range _ Hl) as Bl. fold (latencyScore (recent_window data)) in Bl.
  pose proof (penalty_range _ Hc) as Bc. fold (cpuScore (recent_window data)) in Bc.
  split; [exact Bf|]. split; [exact Bl|]. split; [exact Bc|].
  split; [unfold stabilityScore; lra|].
  destruct data as [|d data']; [congruence|].
  unfold getPerformanceScore. cbv zeta.
  apply Math_round_bounds; unfold stabilityScore;
    change (inject_Z 0) with 0; change (inject_Z 100) with 100; lra.
Qed.

Lemma scores_in_range_of_nonneg_averages_witness :
  scores_in_range [sample 24 50 40].
Proof.
  apply (scores_in_range_of_nonneg_averages [sample 24 50 40]).
  - discriminate.
  - vm_compute. discriminate.
  - vm_compute. discriminate.
  - vm_compute. discriminate.
Defined.

(** C5 as written fails: one sample with latency -100 and cpuUsage -100 has a
    latency sub-score and a cpu sub-score of 50 and a composite score of
    150. *)
Lemma scores_out_of_range_counterexample :
  [sample 30 (-100) (-100)] <> [] /\
  latencyScore (recent_window [sample 30 (-100) (-100)]) == 50 /\
  getPerformanceScore [sample 30 (-100) (-100)] = 150%Z /\
  ~ scores_in_range [sample 30 (-100) (-100)].
Proof.
  split; [discriminate|]. split; [reflexivity|]. split; [reflexivity|].
  unfold scores_in_range. cbv zeta. intros (_ & _ & _ & _ & _ & H).
  vm_compute in H. apply H. reflexivity.
Qed.

(** C10.  An empty sample list scores 0 through the early return and is
    graded "D"; on every other list the divisor, the length of the recent
    window, is positive. *)
Theorem empty_window_scores_0 :
  getPerformanceScore [] = 0%Z /\
  grade (getPerformanceGrade (inject_Z (getPerformanceScore []))) = "D"%string /\
  (forall data : list PerformanceData,
     data <> [] -> (0 < List.length (recent_window data))%nat).
Proof.
  split; [reflexivity|]. split; [reflexivity|].
  exact recent_window_nonempty.
Qed.

Lemma empty_window_scores_0_witness :
  (0 < List.length (recent_window [sample 30 0 0]))%nat.
Proof.
  destruct empty_window_scores_0 as (_ & _ & H).
  apply (H [sample 30 0 0]). discriminate.
Defined.

End TelemetryFacts.

(** ** Recording: size formatting *)

Module RecordingFacts.

Import Recording.

Lemma occurs_app (c : ascii) (s1 s2 : string) :
  occurs c (s1 ++ s2) = occurs c s1 || occurs c s2.
Proof.
  induction s1 as [|a s1 IH]; simpl; [reflexivity|].
  rewrite IH. apply orb_assoc.
Qed.

Lemma split_on_absent (c : ascii) (s : string) :
  occurs c s = false -> split_on c s = (s, None).
Proof.
  induction s as [|a s IH]; simpl; [reflexivity|].
  intros H. apply orb_false_elim in H. destruct H as [Ha Hs].
  rewrite Ha, (IH Hs). reflexivity.
Qed.

Lemma split_on_first (c : ascii) (s1 s2 : string) :
  occurs c s1 = false -> split_on c (s1 ++ String c s2) = (s1, Some s2).
Proof.
  induction s1 as [|a s1 IH]; simpl.
  - intros _. rewrite Ascii.eqb_refl. reflexivity.
  - intros H. apply orb_false_elim in H. destruct H as [Ha Hs].
    rewrite Ha, (IH Hs). reflexivity.
Qed.

Lemma digits_of_uint (c : ascii) (d : uint) :
  is_digit c = false -> occurs c (NilEmpty.string_of_uint d) = false.
Proof.
  intros Hc. unfold is_digit in Hc. cbn [existsb] in Hc.
  repeat (apply orb_false_elim in Hc; destruct Hc as [? Hc]).
  induction d; cbn [NilEmpty.string_of_uint occurs]; try reflexivity;
    rewrite IHd, orb_false_r, Ascii.eqb_sym; assumption.
Qed.

Lemma N_to_uint_nonnil (n : N) : N.to_uint n <> Nil.
Proof.
  destruct n as [|p]; cbn.
  - discriminate.
  - apply DecimalPos.Unsigned.to_uint_nonnil.
Qed.

Lemma digits_of_Z (c : ascii) (z : Z) :
  is_digit c = false -> occurs c (string_of_Z z) = false.
Proof.
  intros Hc. unfold string_of_Z, NilZero.string_of_uint.
  pose proof (N_to_uint_nonnil (Z.to_N z)) as Hn.
  destruct (N.to_uint (Z.to_N z)); [congruence | ..];
    apply digits_of_uint; exact Hc.
Qed.

(** Printing a non-negative integer and reading it back. *)
Lemma parse_digits_string_of_Z (z : Z) :
  (0 <= z)%Z -> parse_digits (string_of_Z z) = Some z.
Proof.
  intros Hz. unfold parse_digits, string_of_Z.
  rewrite NilZero.usu by apply N_to_uint_nonnil.
  cbn [option_map]. rewrite DecimalN.Unsigned.of_to, Z2N.id by exact Hz.
  reflexivity.
Qed.

(** A property checked on every integer below a bound holds below it. *)
Lemma forall_below (P : Z -> bool) (n : nat) :
  forallb P (map Z.of_nat (seq 0 n)) = true ->
  forall m : Z, (0 <= m < Z.of_nat n)%Z -> P m = true.
Proof.
  intros H m Hm. rewrite forallb_forall in H. apply H.
  apply in_map_iff. exists (Z.to_nat m). split; [lia|].
  apply in_seq. lia.
Qed.

Lemma Q_eqb_eq (p q : Q) : Q_eqb p q = true -> p = q.
Proof.
  destruct p as [a b], q as [c d]. unfold Q_eqb. cbn [Qnum Qden].
  intros H. apply andb_prop in H. destruct H as [H1 H2].
  apply Z.eqb_eq in H1. apply Pos.eqb_eq in H2. congruence.
Qed.

(** The two fraction digits [toFixed] prints read back as the hundredths. *)
Lemma parse_two_digits (m : Z) :
  (0 <= m < 100)%Z -> parse_fraction (digit (m / 10) ++ digit m) = Some (m # 100).
Proof.
  intros Hm.
  pose proof (forall_below
    (fun m => match parse_fraction (digit (m / 10) ++ digit m) with
              | Some q => Q_eqb q (m # 100)
              | None => false
              end) 100 eq_refl m Hm) as H.
  cbv beta in H.
  destruct (parse_fraction (digit (m / 10) ++ digit m)); [|discriminate].
  f_equal. apply Q_eqb_eq. exact H.
Qed.

(** The fraction [Number_toString] prints starts with the point, holds no
    space, and reads back as the hundredths. *)
Lemma parse_fraction_string (m : Z) :
  (0 < m < 100)%Z ->
  exists (f : string) (q : Q),
    fraction_string m = String "." f /\
    parse_fraction f = Some q /\
    (q == m # 100)%Q.
Proof.
  intros Hm.
  pose proof (forall_below
    (fun m => (m =? 0)%Z ||
              match fraction_string m with
              | String c f =>
                  Ascii.eqb c "." &&
                  match parse_fraction f with
                  | Some q => Qeq_bool q (m # 100)
                  | None => false
                  end
              | EmptyString => false
              end) 100 eq_refl m (conj (Z.lt_le_incl _ _ (proj1 Hm)) (proj2 Hm))) as H.
  cbv beta in H.
  apply orb_prop in H. destruct H as [H | H]; [apply Z.eqb_eq in H; lia|].
  destruct (fraction_string m) as [|c f]; [discriminate|].
  apply andb_prop in H. destruct H as [Hc H].
  apply Ascii.eqb_eq in Hc. subst c.
  destruct (parse_fraction f) as [q|] eqn:Ep; [|discriminate].
  exists f, q. split; [reflexivity|]. split; [exact Ep|].
  apply Qeq_bool_iff. exact H.
Qed.

Lemma fraction_string_no_space (m : Z) :
  (0 <= m < 100)%Z -> occurs " " (fraction_string m) = false.
Proof.
  intros Hm.
  pose proof (forall_below (fun m => negb (occurs " " (fraction_string m)))
                100 eq_refl m Hm) as H.
  cbv beta in H. now apply negb_true_iff in H.
Qed.

Lemma append_empty_r (s : string) : s ++ "" = s.
Proof.
  induction s as [|a s IH]; simpl; [reflexivity | now rewrite IH].
Qed.

Lemma digit_tens (n : Z) : digit (n / 10) = digit ((n mod 100) / 10).
Proof.
  unfold digit. f_equal.
  pose proof (Z.div_mod n 100 ltac:(lia)) as E.
  pose proof (Z.mod_pos_bound n 100 ltac:(lia)) as B.
  replace (n / 10)%Z with (n mod 100 / 10 + n / 100 * 10)%Z.
  - apply Z.mod_add. lia.
  - rewrite <- Z.div_add by lia. f_equal. lia.
Qed.

Lemma digit_units (n : Z) : digit n = digit (n mod 100).
Proof.
  unfold digit. f_equal.
  pose proof (Z.div_mod n 100 ltac:(lia)) as E.
  replace n with (n mod 100 + (n / 100 * 10) * 10)%Z at 1 by lia.
  apply Z.mod_add. lia.
Qed.

(** [parseFloat(x.toFixed(2))] is [x] rounded to hundredths. *)
Lemma parseFloat_toFixed2 (x : Q) :
  (0 <= hundredths x)%Z ->
  parseFloat (toFixed2 x)
  = Some (inject_Z (hundredths x / 100) + (hundredths x mod 100 # 100))%Q.
Proof.
  intros Hn. unfold toFixed2. cbv zeta.
  set (n := hundredths x) in *.
  unfold parseFloat.
  change ("." ++ digit (n / 10) ++ digit n) with (String "." (digit (n / 10) ++ digit n)).
  rewrite split_on_first by (apply digits_of_Z; reflexivity).
  rewrite parse_digits_string_of_Z by (apply Z.div_pos; lia).
  rewrite digit_tens, (digit_units n).
  rewrite parse_two_digits by (apply Z.mod_pos_bound; lia).
  reflexivity.
Qed.

Lemma Qfloor_hundredths (ip m : Z) :
  Qfloor ((inject_Z ip + (m # 100)) * 100) = (ip * 100 + m)%Z.
Proof.
  unfold Qfloor, Qmult, Qplus, inject_Z. cbn [Qnum Qden].
  change (Z.pos (1 * 100 * 1)) with 100%Z. change (Z.pos 100) with 100%Z.
  change (Z.pos 1) with 1%Z.
  replace ((ip * 100 + m * 1) * 100)%Z with ((ip * 100 + m) * 100)%Z by lia.
  apply Z.div_mul. lia.
Qed.

Lemma Number_toString_value (ip m : Z) :
  (0 <= m < 100)%Z ->
  Number_toString (inject_Z ip + (m # 100))
  = string_of_Z ip ++ fraction_string m.
Proof.
  intros Hm. unfold Number_toString. cbv zeta. rewrite Qfloor_hundredths.
  replace ((ip * 100 + m) / 100)%Z with ip
    by (rewrite Z.div_add_l by lia; rewrite (Z.div_small m 100) by lia; lia).
  replace ((ip * 100 + m) mod 100)%Z with m
    by (rewrite Z.add_comm, Z.mod_add by lia; now rewrite Z.mod_small by lia).
  reflexivity.
Qed.

(** Reading back what [Number_toString] prints. *)
Lemma parseFloat_number (ip m : Z) :
  (0 <= ip)%Z -> (0 <= m < 100)%Z ->
  exists q : Q,
    parseFloat (string_of_Z ip ++ fraction_string m) = Some q /\
    (q == inject_Z ip + (m # 100))%Q.
Proof.
  intros Hip Hm. unfold parseFloat.
  destruct (Z.eq_dec m 0) as [-> | Hnz].
  - change (fraction_string 0) with "". rewrite append_empty_r.
    rewrite split_on_absent by (apply digits_of_Z; reflexivity).
    rewrite parse_digits_string_of_Z by exact Hip.
    exists (inject_Z ip). split; [reflexivity|].
    assert (E : (0 # 100 == 0)%Q) by reflexivity. rewrite E. ring.
  - destruct (parse_fraction_string m ltac:(lia)) as (f & q & Ef & Ep & Eq).
    rewrite Ef.
    rewrite split_on_first by (apply digits_of_Z; reflexivity).
    rewrite parse_digits_string_of_Z by exact Hip.
    rewrite Ep. cbn [option_map].
    exists (inject_Z ip + q)%Q. split; [reflexivity|]. rewrite Eq. reflexivity.
Qed.

Lemma number_no_space (ip m : Z) :
  (0 <= m < 100)%Z -> occurs " " (string_of_Z ip ++ fraction_string m) = false.
Proof.
  intros Hm. rewrite occurs_app, digits_of_Z by reflexivity.
  now rewrite fraction_string_no_space.
Qed.

(** *** The unit and the rounded value *)

Lemma k_pow (i : Z) : (0 <= i)%Z -> (k ^ i = 2 ^ (10 * i))%Z.
Proof.
  intros Hi. unfold k. change 1024%Z with (2 ^ 10)%Z.
  rewrite <- Z.pow_mul_r by lia. reflexivity.
Qed.

Lemma k_pow_pos (i : Z) : (0 <= i)%Z -> (0 < k ^ i)%Z.
Proof.
  intros Hi. apply Z.pow_pos_nonneg; unfold k; lia.
Qed.

(** [unit_index] is the floor of the logarithm in base [k]. *)
Lemma unit_index_spec (bytes : Z) :
  (0 < bytes)%Z ->
  (0 <= unit_index bytes /\
   k ^ unit_index bytes <= bytes < k ^ (unit_index bytes + 1))%Z.
Proof.
  intros Hb. unfold unit_index.
  pose proof (Z.log2_spec bytes Hb) as [Hlo Hhi].
  pose proof (Z.log2_nonneg bytes) as Hl.
  pose proof (Z.div_mod (Z.log2 bytes) 10 ltac:(lia)) as E.
  pose proof (Z.mod_pos_bound (Z.log2 bytes) 10 ltac:(lia)) as B.
  assert (Hi : (0 <= Z.log2 bytes / 10)%Z) by (apply Z.div_pos; lia).
  split; [exact Hi|].
  rewrite !k_pow by lia. split.
  - apply Z.le_trans with (2 ^ Z.log2 bytes)%Z; [|exact Hlo].
    apply Z.pow_le_mono_r; lia.
  - apply Z.lt_le_trans with (2 ^ Z.succ (Z.log2 bytes))%Z; [exact Hhi|].
    apply Z.pow_le_mono_r; lia.
Qed.

Lemma unit_index_mono (a b : Z) :
  (0 < a <= b)%Z -> (unit_index a <= unit_index b)%Z.
Proof.
  intros H. unfold unit_index.
  apply Z.div_le_mono; [lia|]. apply Z.log2_le_mono. lia.
Qed.

Lemma unit_index_below (bytes : Z) :
  (0 < bytes < k ^ 4)%Z -> (0 <= unit_index bytes <= 3)%Z.
Proof.
  intros [Hlo Hhi].
  destruct (unit_index_spec bytes Hlo) as (H0 & Hk & _).
  split; [exact H0|].
  assert (Hlt : (k ^ unit_index bytes < k ^ 4)%Z) by lia.
  apply Z.pow_lt_mono_r_iff in Hlt; unfold k in *; lia.
Qed.

Lemma hundredths_div (bytes K : Z) :
  (0 < K)%Z -> hundredths (inject_Z bytes / inject_Z K) = rounded bytes K.
Proof.
  intros HK. unfold hundredths, rounded.
  assert (HKq : ~ (inject_Z K == 0)%Q).
  { change 0%Q with (inject_Z 0). rewrite inject_Z_injective. lia. }
  assert (E : (inject_Z bytes / inject_Z K * 100 + (1 # 2)
               == inject_Z (200 * bytes + K) / inject_Z (2 * K))%Q).
  { rewrite inject_Z_plus, !inject_Z_mult.
    change (inject_Z 200) with 200%Q. change (inject_Z 2) with 2%Q.
    field. exact HKq. }
  rewrite E. symmetry. apply Zdiv_Qdiv.
Qed.

Lemma rounded_nonneg (bytes K : Z) :
  (0 <= bytes)%Z -> (0 < K)%Z -> (0 <= rounded bytes K)%Z.
Proof.
  intros Hb HK. unfold rounded. apply Z.div_pos; lia.
Qed.

Lemma rounded_mono (a b K : Z) :
  (0 < K)%Z -> (a <= b)%Z -> (rounded a K <= rounded b K)%Z.
Proof.
  intros HK Hab. unfold rounded. apply Z.div_le_mono; lia.
Qed.

Lemma rounded_upper (bytes K : Z) :
  (0 < K)%Z -> (bytes < k * K)%Z -> (rounded bytes K <= 100 * k)%Z.
Proof.
  intros HK Hb. unfold rounded.
  assert (H : ((200 * bytes + K) / (2 * K) < 100 * k + 1)%Z).
  { apply Z.div_lt_upper_bound; [lia|]. unfold k in *. lia. }
  lia.
Qed.

Lemma rounded_lower (bytes K : Z) :
  (0 < K)%Z -> (K <= bytes)%Z -> (100 <= rounded bytes K)%Z.
Proof.
  intros HK Hb. unfold rounded. apply Z.div_le_lower_bound; lia.
Qed.

Lemma shown_hundredths_mono (a b : Z) :
  (0 < a <= b)%Z -> (shown_hundredths a <= shown_hundredths b)%Z.
Proof.
  intros [Ha Hab]. unfold shown_hundredths.
  destruct (unit_index_spec a Ha) as (Ia & La & Ua).
  destruct (unit_index_spec b ltac:(lia)) as (Ib & Lb & Ub).
  pose proof (unit_index_mono a b ltac:(lia)) as Hi.
  pose proof (k_pow_pos _ Ia) as Ka. pose proof (k_pow_pos _ Ib) as Kb.
  destruct (Z.eq_dec (unit_index a) (unit_index b)) as [E | NE].
  - rewrite E in *. apply Z.mul_le_mono_nonneg_r; [lia|].
    apply rounded_mono; lia.
  - assert (Hstep : (k ^ (unit_index a + 1) <= k ^ unit_index b)%Z)
      by (apply Z.pow_le_mono_r; unfold k; lia).
    rewrite Z.pow_add_r, Z.pow_1_r in Hstep, Ua by lia.
    pose proof (rounded_upper a (k ^ unit_index a) Ka ltac:(lia)) as Hup.
    pose proof (rounded_lower b (k ^ unit_index b) Kb Lb) as Hlow.
    apply Z.le_trans with (100 * k * k ^ unit_index a)%Z.
    + apply Z.mul_le_mono_nonneg_r; lia.
    + apply Z.le_trans with (100 * k ^ unit_index b)%Z; [lia|].
      apply Z.mul_le_mono_nonneg_r; lia.
Qed.

Lemma index_of_sizes_at (i : Z) :
  (0 <= i <= 3)%Z -> index_of (sizes_at i) sizes = Some (Z.to_nat i).
Proof.
  intros Hi.
  assert (C : (i = 0 \/ i = 1 \/ i = 2 \/ i = 3)%Z) by lia.
  destruct C as [-> | [-> | [-> | ->]]]; reflexivity.
Qed.

(** What the formatted size of a positive byte count below [k^4] stands
    for. *)
Lemma representedBytes_formatFileSize (bytes : Z) :
  (0 < bytes < k ^ 4)%Z ->
  exists v : Q,
    representedBytes (formatFileSize bytes) = Some v /\
    (v == inject_Z (shown_hundredths bytes) / 100)%Q.
Proof.
  intros Hb.
  destruct (unit_index_below bytes Hb) as [I0 I3].
  pose proof (k_pow_pos _ I0) as HK.
  unfold formatFileSize, shown_hundredths.
  replace (bytes =? 0)%Z with false by (symmetry; apply Z.eqb_neq; lia).
  replace (bytes <? 0)%Z with false by (symmetry; apply Z.ltb_ge; lia).
  cbv zeta.
  set (i := unit_index bytes) in *.
  pose proof (hundredths_div bytes (k ^ i) HK) as Hn.
  pose proof (rounded_nonneg bytes (k ^ i) ltac:(lia) HK) as Hn0.
  set (n := rounded bytes (k ^ i)) in *.
  rewrite parseFloat_toFixed2 by (rewrite Hn; exact Hn0).
  rewrite Hn.
  pose proof (Z.mod_pos_bound n 100 ltac:(lia)) as Hm.
  rewrite Number_toString_value by exact Hm.
  unfold representedBytes.
  change (" " ++ sizes_at i) with (String " " (sizes_at i)).
  rewrite split_on_first by (apply number_no_space; exact Hm).
  destruct (parseFloat_number (n / 100) (n mod 100)
              ltac:(apply Z.div_pos; lia) Hm) as (q & Eq & Hq).
  rewrite Eq, index_of_sizes_at by lia.
  rewrite Z2Nat.id by lia.
  eexists. split; [reflexivity|].
  rewrite Hq.
  rewrite (Z.div_mod n 100) at 3 by lia.
  rewrite inject_Z_mult, inject_Z_plus, inject_Z_mult.
  rewrite (Qmake_Qdiv (n mod 100) 100).
  change (inject_Z 100) with 100%Q. change (inject_Z (Z.pos 100)) with 100%Q.
  field.
Qed.

(** C6, as the code has it.  Zero bytes format as "0 Bytes"; 1048576 bytes
    format as "1 MB": [toFixed(2)] yields "1.00" and [parseFloat] drops the
    zeros before the unit is appended. *)
Theorem formatFileSize_examples :
  formatFileSize 0 = "0 Bytes" /\
  toFixed2 (inject_Z 1048576 / inject_Z (k ^ unit_index 1048576)) = "1.00" /\
  formatFileSize 1048576 = "1 MB".
Proof.
  repeat split; vm_compute; reflexivity.
Qed.

(** C6 as written fails: the size of 1048576 bytes is not shown as
    "1.00 MB". *)
Lemma formatFileSize_not_two_decimals :
  formatFileSize 1048576 <> "1.00 MB".
Proof.
  vm_compute. discriminate.
Qed.

(** C7, as the code has it.  For byte counts below [k^4], where a unit
    exists, the byte value the formatted size stands for does not decrease
    when the byte count grows. *)
Theorem formatFileSize_monotone (a b : Z) :
  (0 <= a <= b)%Z -> (b < k ^ 4)%Z -> monotone_at a b.
Proof.
  intros [Ha Hab] Hb. unfold monotone_at.
  destruct (Z.eq_dec a 0) as [-> | Hna].
  - exists (inject_Z 0 * inject_Z (k ^ Z.of_nat 0))%Q.
    destruct (Z.eq_dec b 0) as [-> | Hnb].
    + eexists. split; [reflexivity|]. split; [reflexivity|]. apply Qle_refl.
    + destruct (representedBytes_formatFileSize b ltac:(lia)) as (vb & Eb & Hvb).
      exists vb. split; [reflexivity|]. split; [exact Eb|].
      rewrite Hvb.
      assert (H0 : (0 <= shown_hundredths b)%Z).
      { unfold shown_hundredths.
        destruct (unit_index_spec b ltac:(lia)) as (I0 & _ & _).
        pose proof (k_pow_pos _ I0).
        pose proof (rounded_nonneg b (k ^ unit_index b) ltac:(lia) ltac:(lia)).
        apply Z.mul_nonneg_nonneg; lia. }
      rewrite Zle_Qle in H0.
      assert (D : (inject_Z (shown_hundredths b) / 100
                   == inject_Z (shown_hundredths b) * (1 # 100))%Q) by field.
      rewrite D. change (inject_Z 0 * inject_Z (k ^ Z.of_nat 0))%Q with (0 * 1)%Q.
      change (inject_Z 0) with 0%Q in H0. lra.
  - destruct (representedBytes_formatFileSize a ltac:(lia)) as (va & Ea & Hva).
    destruct (representedBytes_formatFileSize b ltac:(lia)) as (vb & Eb & Hvb).
    exists va, vb. split; [exact Ea|]. split; [exact Eb|].
    rewrite Hva, Hvb.
    pose proof (shown_hundredths_mono a b ltac:(lia)) as H.
    rewrite Zle_Qle in H.
    assert (Da : (inject_Z (shown_hundredths a) / 100
                  == inject_Z (shown_hundredths a) * (1 # 100))%Q) by field.
    assert (Db : (inject_Z (shown_hundredths b) / 100
                  == inject_Z (shown_hundredths b) * (1 # 100))%Q) by field.
    rewrite Da, Db. lra.
Qed.

Lemma formatFileSize_monotone_witness : monotone_at 1048575 1048576.
Proof.
  apply (formatFileSize_monotone 1048575 1048576).
  - lia.
  - vm_compute. reflexivity.
Defined.

(** C7 as written fails: at [k^4] bytes the unit is read past the end of
    [sizes], the text is "1 undefined" and stands for no byte value. *)
Lemma formatFileSize_undefined_unit :
  (0 <= 1 <= k ^ 4)%Z /\
  formatFileSize (k ^ 4) = "1 undefined" /\
  ~ monotone_at 1 (k ^ 4).
Proof.
  split; [vm_compute; split; discriminate|].
  split; [vm_compute; reflexivity|].
  intros (va & vb & _ & Hb & _). vm_compute in Hb. discriminate.
Qed.

(** ** Recording: the finalize scenario *)

(** The steps of the studio on an explicit state. *)

Lemma step_start (st : Studio) :
  studio_step st (StartRecording true false)
  = Build_Studio true 0 (recordings st)
      (Some {| recorder_active := true; onstop_recordingTime := recordingTime st |})
      [] (Some (fresh_handle (intervals st)))
      (fresh_handle (intervals st) :: intervals st) (stopEvents st).
Proof. reflexivity. Qed.

Lemma step_data (r : bool) (t : nat) (rs : list RecordingEntry) (mr : MediaRecorder)
    (c : list Blob) (ri : option nat) (iv : list nat) (se : list MediaRecorder)
    (data : Blob) :
  (0 < blob_size data)%Z ->
  studio_step (Build_Studio r t rs (Some mr) c ri iv se) (DataAvailable data)
  = Build_Studio r t rs (Some mr) (c ++ [data]) ri iv se.
Proof.
  intros H. apply Z.gtb_lt in H.
  cbn [studio_step]. unfold ondataavailable. cbn [mediaRecorderRef].
  rewrite H. reflexivity.
Qed.

Lemma step_tick (r : bool) (t : nat) (rs : list RecordingEntry)
    (m : option MediaRecorder) (c : list Blob) (ri : option nat) (h : nat)
    (iv : list nat) (se : list MediaRecorder) :
  studio_step (Build_Studio r t rs m c ri (h :: iv) se) (IntervalTick h)
  = Build_Studio r (t + 1) rs m c ri (h :: iv) se.
Proof.
  cbn [studio_step]. unfold interval_tick. cbn [intervals existsb].
  rewrite Nat.eqb_refl. reflexivity.
Qed.

Lemma step_stop (t : nat) (rs : list RecordingEntry) (captured : nat)
    (c : list Blob) (ri : option nat) (iv : list nat) (se : list MediaRecorder) :
  studio_step
    (Build_Studio true t rs
       (Some {| recorder_active := true; onstop_recordingTime := captured |})
       c ri iv se)
    StopRecording
  = Build_Studio false t rs
      (Some {| recorder_active := false; onstop_recordingTime := captured |})
      c ri (clearInterval ri iv)
      (se ++ [{| recorder_active := true; onstop_recordingTime := captured |}]).
Proof. reflexivity. Qed.

Lemma step_recorder_stop (r : bool) (t : nat) (rs : list RecordingEntry)
    (m : option MediaRecorder) (c : list Blob) (ri : option nat) (iv : list nat)
    (mr : MediaRecorder) (rest : list MediaRecorder) (env : StopEnv) :
  studio_step (Build_Studio r t rs m c ri iv (mr :: rest)) (RecorderStop env)
  = Build_Studio r t
      ({| id := string_of_Z (date_now env);
          name := "Recording_" ++ replace_colons (substring 0 19 (iso_string env));
          duration := onstop_recordingTime mr;
          size := formatFileSize (blob_size (Blob_of c));
          timestamp := new_date env;
          thumbnail := object_url env |} :: rs)
      m c ri iv rest.
Proof. reflexivity. Qed.

(** The entry a finalized recording adds to the catalog: it is prepended,
    the entries already there are kept, and its duration is the
    [recordingTime] that was current when [startRecording] was called. *)
Lemma finalize_prepends (st : Studio) (b1 b2 b3 : Blob) (env : StopEnv) :
  stopEvents st = [] ->
  (0 < blob_size b1)%Z -> (0 < blob_size b2)%Z -> (0 < blob_size b3)%Z ->
  let st' := studio_run st
               (finalize_scenario (fresh_handle (intervals st)) b1 b2 b3 env) in
  exists entry : RecordingEntry,
    recordings st' = entry :: recordings st /\
    duration entry = recordingTime st /\
    size entry = formatFileSize (blob_size b1 + blob_size b2 + blob_size b3) /\
    recordingTime st' = 3%nat.
Proof.
  intros Hs H1 H2 H3. cbv zeta.
  unfold studio_run, finalize_scenario. cbn [fold_left].
  rewrite step_start, Hs.
  rewrite (step_data _ _ _ _ _ _ _ _ b1 H1), step_tick.
  rewrite (step_data _ _ _ _ _ _ _ _ b2 H2), step_tick.
  rewrite (step_data _ _ _ _ _ _ _ _ b3 H3), step_tick.
  rewrite step_stop. cbn [List.app]. rewrite step_recorder_stop.
  cbn [recordings recordingTime onstop_recordingTime].
  eexists. split; [reflexivity|].
  cbn [duration size Blob_of blob_size fold_right List.app].
  split; [reflexivity|]. split; [f_equal; lia | reflexivity].
Qed.

(** C9 on the code.  From the initial studio, the finalize scenario with
    three one-second segments leaves exactly one entry in the catalog, with
    a non-zero size, while the timer has counted to 3; the entry's duration
    is 0, the [recordingTime] captured when the recording was started. *)
Theorem finalize_scenario_duration :
  let st := studio_run initialStudio
              (finalize_scenario 1 segment segment segment sample_env) in
  recordingTime st = 3%nat /\
  exists entry : RecordingEntry,
    recordings st = [entry] /\
    size entry = "146.48 KB" /\
    duration entry = 0%nat /\
    duration entry <> 3%nat.
Proof.
  cbv zeta. split; [reflexivity|].
  eexists. split; [vm_compute; reflexivity|].
  split; [reflexivity|]. split; [reflexivity | discriminate].
Qed.

End RecordingFacts.

(** ** Home: the in-flight gate *)

Module HomeFacts.

Import Home.

Create HintDb quiet.

Lemma quiet_ret {A : Type} (a : A) : quiet (ret a).
Proof. intros st. cbn. auto. Qed.

Lemma quiet_skip : quiet skip.
Proof. apply quiet_ret. Qed.

Lemma quiet_throw {A : Type} (exn : string) : quiet (@throw A exn).
Proof. intros st. cbn. auto. Qed.

Lemma quiet_get {A : Type} (f : State -> A) : quiet (get f).
Proof. intros st. cbn. auto. Qed.

Lemma quiet_emit (e : Effect) : quiet_effect e -> quiet (emit e).
Proof. intros He st. cbn. auto. Qed.

Lemma quiet_modify (f : State -> State) :
  (forall st, processingRef (f st) = processingRef st) -> quiet (modify f).
Proof. intros Hf st. cbn. auto. Qed.

Lemma quiet_bind {A B : Type} (c : M A) (f : A -> M B) :
  quiet c -> (forall a, quiet (f a)) -> quiet (bind c f).
Proof.
  intros Hc Hf st. unfold bind.
  specialize (Hc st). destruct (c st) as [[st1 e1] [a | exn]].
  - specialize (Hf a st1). destruct (f a st1) as [[st2 e2] r].
    destruct Hc as [G1 Q1], Hf as [G2 Q2].
    split; [congruence | apply Forall_app; auto].
  - exact Hc.
Qed.

Lemma quiet_try_catch (body : Handler) (handler : string -> Handler) :
  quiet body -> (forall exn, quiet (handler exn)) -> quiet (try_catch body handler).
Proof.
  intros Hc Hf st. unfold try_catch.
  specialize (Hc st). destruct (body st) as [[st1 e1] [a | exn]].
  - exact Hc.
  - specialize (Hf exn st1). destruct (handler exn st1) as [[st2 e2] r].
    destruct Hc as [G1 Q1], Hf as [G2 Q2].
    split; [congruence | apply Forall_app; auto].
Qed.

Lemma quiet_if {A : Type} (b : bool) (c1 c2 : M A) :
  quiet c1 -> quiet c2 -> quiet (if b then c1 else c2).
Proof. destruct b; auto. Qed.

(** Code that reads the state before it chooses what to run. *)
Lemma quiet_reading {A : Type} (c : State -> M A) :
  (forall s, quiet (c s)) -> quiet (fun st => c st st).
Proof. intros H st. apply (H st st). Qed.

#[local] Hint Resolve quiet_ret quiet_skip quiet_throw quiet_get quiet_bind
  quiet_try_catch quiet_if : quiet.
#[local] Hint Extern 1 (quiet (emit _)) => (apply quiet_emit; exact I) : quiet.
#[local] Hint Extern 1 (quiet (modify _)) => (apply quiet_modify; reflexivity) : quiet.

Ltac quiet_tac := unfold setConnectionState, setStreamState, setSessionStats,
  setPerformanceMetrics; auto 20 with quiet.

Lemma quiet_addLog (message : string) (category : Category) :
  quiet (addLog message category).
Proof. unfold addLog. quiet_tac. Qed.

#[local] Hint Resolve quiet_addLog : quiet.

Lemma quiet_connectWebSocket (captured : bool) : quiet (connectWebSocket captured).
Proof.
  unfold connectWebSocket. apply quiet_bind; [quiet_tac|].
  intros [|]; quiet_tac.
Qed.

#[local] Hint Resolve quiet_connectWebSocket : quiet.

Lemma quiet_onopen : quiet onopen.
Proof. unfold onopen. quiet_tac. Qed.

Lemma quiet_handleWebSocketMessage (data : JSON) : quiet (handleWebSocketMessage data).
Proof.
  unfold handleWebSocketMessage. apply quiet_bind; [quiet_tac|]. intros _.
  destruct data as [|o|]; [quiet_tac | | quiet_tac].
  apply quiet_if; [|quiet_tac].
  apply quiet_bind; [quiet_tac|]. intros canvas. quiet_tac.
Qed.

Lemma quiet_onmessage (JSON_parse : string -> ParseResult) (raw : string) :
  quiet (onmessage JSON_parse raw).
Proof.
  unfold onmessage. apply quiet_try_catch; [|quiet_tac].
  destruct (JSON_parse raw); [apply quiet_handleWebSocketMessage | quiet_tac].
Qed.

Lemma quiet_onclose (ws : WebSocket) : quiet (onclose ws).
Proof. unfold onclose. quiet_tac. Qed.

Lemma quiet_reconnect_timeout (t : Timer) : quiet (reconnect_timeout t).
Proof. unfold reconnect_timeout. quiet_tac. Qed.

Lemma quiet_onerror : quiet onerror.
Proof. unfold onerror. quiet_tac. Qed.

Lemma quiet_checkTierLimits (action tier_name bg_type : string) :
  quiet (checkTierLimits action tier_name bg_type).
Proof.
  unfold checkTierLimits.
  destruct (find _ subscriptionTiers); quiet_tac.
Qed.

Lemma quiet_startCamera (env : StartEnv) : quiet (startCamera env).
Proof.
  unfold startCamera.
  apply (quiet_reading (fun st => try_catch _ _)). intros s.
  apply quiet_try_catch; [|quiet_tac].
  apply quiet_bind; [quiet_tac|]. intros _.
  apply quiet_bind.
  - destruct (quality (streamState s)); auto using quiet_checkTierLimits with quiet.
  - intros allowed. apply quiet_if; [quiet_tac|].
    destruct (media env); quiet_tac.
Qed.

Lemma quiet_ws_close (i : nat) : quiet (ws_close i).
Proof. unfold ws_close. quiet_tac. Qed.

(** *** Counting along a trace *)

Lemma peak_ge (trace : list Effect) (n : nat) : (n <= peak trace n)%nat.
Proof. destruct trace; cbn [peak]; lia. Qed.

Lemma peak_app (t1 t2 : list Effect) (n : nat) :
  peak (t1 ++ t2) n = Nat.max (peak t1 n) (peak t2 (fold_left count_step t1 n)).
Proof.
  revert n. induction t1 as [|e t1 IH]; intros n; cbn [List.app peak fold_left].
  - pose proof (peak_ge t2 n). lia.
  - rewrite IH. lia.
Qed.

Lemma count_le_peak (pre post : list Effect) (n : nat) :
  (fold_left count_step pre n <= peak (pre ++ post) n)%nat.
Proof.
  rewrite peak_app.
  assert (H : forall t m, (fold_left count_step t m <= peak t m)%nat).
  { induction t as [|e t IH]; intros m; cbn [fold_left peak]; [lia|].
    specialize (IH (count_step m e)). lia. }
  specialize (H pre n). lia.
Qed.

Lemma quiet_effect_count (e : Effect) (n : nat) :
  quiet_effect e -> (count_step n e <= n)%nat.
Proof.
  destruct e; cbn; try tauto; try lia.
  intros _. destruct (is_processed_frame data); lia.
Qed.

Lemma quiet_trace_count (trace : list Effect) (n : nat) :
  Forall quiet_effect trace ->
  (peak trace n <= n)%nat /\ (fold_left count_step trace n <= n)%nat.
Proof.
  intros H. revert n. induction H as [|e t He _ IH]; intros n; cbn [peak fold_left].
  - lia.
  - pose proof (quiet_effect_count e n He). specialize (IH (count_step n e)). lia.
Qed.

(** Reduce a goal on the outcome of a handler at a state to the safety of
    the handler. *)
Ltac at_state Hinv :=
  lazymatch goal with
  | |- keeps_gate ?n (?h ?st) =>
      cut (gate_safe h); [intros Hsafe; exact (Hsafe st n Hinv)|]
  end.

Lemma gate_safe_quiet {A : Type} (c : M A) : quiet c -> gate_safe c.
Proof.
  intros Hq st n [Hn Hg]. specialize (Hq st). unfold keeps_gate.
  destruct (c st) as [[st' effs] r]. destruct Hq as [G Q].
  destruct (quiet_trace_count effs n Q) as [P F].
  split; [lia|]. split; [lia|]. rewrite G. intros H. specialize (Hg H). lia.
Qed.

Lemma gate_safe_bind {A B : Type} (c : M A) (f : A -> M B) :
  gate_safe c -> (forall a, gate_safe (f a)) -> gate_safe (bind c f).
Proof.
  intros Hc Hf st n Hinv. unfold bind.
  specialize (Hc st n Hinv). unfold keeps_gate in *.
  destruct (c st) as [[st1 e1] [a | exn]].
  - destruct Hc as [P1 I1].
    specialize (Hf a st1 _ I1). unfold keeps_gate in Hf.
    destruct (f a st1) as [[st2 e2] r].
    destruct Hf as [P2 I2].
    rewrite peak_app, fold_left_app. split; [lia | exact I2].
  - exact Hc.
Qed.

Lemma gate_safe_write_false : gate_safe (write_processingRef false).
Proof.
  intros st n [Hn Hg]. unfold keeps_gate. cbn.
  split; [lia|]. split; [lia | reflexivity].
Qed.

Lemma gate_safe_reading {A : Type} (c : State -> M A) :
  (forall s, gate_safe (c s)) -> gate_safe (fun st => c st st).
Proof. intros H st. apply (H st st). Qed.

Lemma gate_safe_img_onload (img : Image) (env : LoadEnv) :
  gate_safe (img_onload img env).
Proof.
  unfold img_onload.
  apply gate_safe_bind; [apply gate_safe_quiet; quiet_tac|]. intros canvas.
  apply gate_safe_bind; [apply gate_safe_quiet; quiet_tac|]. intros _.
  apply gate_safe_bind; [apply gate_safe_write_false|]. intros _.
  apply gate_safe_quiet. quiet_tac.
Qed.

Lemma gate_safe_stopCamera (date_now : Z) : gate_safe (stopCamera date_now).
Proof.
  unfold stopCamera.
  apply (gate_safe_reading (fun st => bind _ _)). intros s.
  apply gate_safe_bind; [apply gate_safe_quiet; quiet_tac|]. intros _.
  apply gate_safe_bind.
  { apply gate_safe_quiet. destruct (wsRef s); auto using quiet_ws_close with quiet. }
  intros _.
  apply gate_safe_bind; [apply gate_safe_write_false|]. intros _.
  apply gate_safe_quiet. quiet_tac.
Qed.

(** What [sendFrameToBackend] can do, by cases: nothing; the write of the
    gate followed by the transmission; or, when an exception is caught, a
    log entry and the clearing of the gate, with no transmission. *)
Lemma sendFrameToBackend_cases (cl : SendClosure) (env : CaptureEnv) (st : State) :
  match sendFrameToBackend cl env st with
  | (st', effs, r) =>
      (st' = st /\ effs = []) \/
      (processingRef st = false /\ processingRef st' = true /\
       exists socket message, effs = [GateWrite true; WsSend socket message]) \/
      (processingRef st = false /\ processingRef st' = false /\
       exists exn,
         effs = [ConsoleLog error ("Frame processing error: " ++ exn); GateWrite false] \/
         effs = [GateWrite true;
                 ConsoleLog error ("Frame processing error: " ++ exn); GateWrite false])
  end.
Proof.
  unfold sendFrameToBackend.
  destruct (wsRef st) as [socket|]; [|left; split; reflexivity].
  destruct (video env) as [v|]; [|left; split; reflexivity].
  destruct (wsRef_is_OPEN st); cbn [negb orb]; [|left; split; reflexivity].
  destruct (processingRef st) eqn:G; [left; split; reflexivity|].
  destruct (video_readyState v =? 4)%Z; cbn [negb]; [|left; split; reflexivity].
  unfold try_catch.
  destruct (temp_context env); cbn [negb]; [|left; split; reflexivity].
  destruct (capture_exn env) as [exn|].
  - right; right. cbn. repeat split. exists exn. left. reflexivity.
  - destruct (send_exn env) as [exn|].
    + right; right. cbn. repeat split. exists exn. right. reflexivity.
    + right; left. cbn. repeat split. eexists _, _. reflexivity.
Qed.

Lemma gate_safe_sendFrameToBackend (cl : SendClosure) (env : CaptureEnv) :
  gate_safe (sendFrameToBackend cl env).
Proof.
  intros st n [Hn Hg]. unfold keeps_gate.
  pose proof (sendFrameToBackend_cases cl env st) as H.
  destruct (sendFrameToBackend cl env st) as [[st' effs] r].
  destruct H as [[-> ->] | [(G & G' & socket & message & ->) | (G & G' & exn & [-> | ->])]].
  - cbn. split; [lia|]. split; [lia | exact Hg].
  - specialize (Hg G). subst n. cbn. split; [lia|]. split; [lia | congruence].
  - cbn. split; [lia|]. split; [lia | reflexivity].
  - cbn. split; [lia|]. split; [lia | reflexivity].
Qed.

Lemma gate_safe_loop (cl : LoopClosure) (env : CaptureEnv) (now : Q) :
  gate_safe (loop cl env now).
Proof.
  unfold loop.
  destruct (loop_isStreaming cl && loop_isConnected cl);
    [|apply gate_safe_quiet; quiet_tac].
  apply gate_safe_bind; [apply gate_safe_sendFrameToBackend|]. intros _.
  apply gate_safe_quiet.
  apply quiet_bind; [quiet_tac|]. intros _.
  apply quiet_bind; [quiet_tac|]. intros c. quiet_tac.
Qed.

Lemma gate_safe_dispatch (JSON_parse : string -> ParseResult) (e : Event) :
  gate_safe (dispatch JSON_parse e).
Proof.
  intros st n Hinv.
  destruct e; cbn [dispatch].
  - at_state Hinv. apply gate_safe_quiet, quiet_startCamera.
  - at_state Hinv. apply gate_safe_stopCamera.
  - destruct (negb _ && negb _); at_state Hinv; apply gate_safe_quiet; quiet_tac.
  - at_state Hinv. apply gate_safe_quiet.
    apply quiet_bind; [|intros _; apply quiet_connectWebSocket].
    destruct (wsRef_is_OPEN st); [|quiet_tac].
    destruct (wsRef st); auto using quiet_ws_close with quiet.
  - destruct (socket_readyState st socket) as [[| | |]|];
      at_state Hinv; apply gate_safe_quiet; auto using quiet_onopen with quiet.
  - destruct (socket_readyState st socket) as [[| | |]|];
      at_state Hinv; apply gate_safe_quiet; auto using quiet_onmessage with quiet.
  - destruct (socket_readyState st socket) as [[| | |]|];
      at_state Hinv; apply gate_safe_quiet; auto using quiet_onerror with quiet.
  - destruct (nth_error (sockets st) socket) as [ws|];
      [destruct (readyState ws)|];
      at_state Hinv; apply gate_safe_quiet; auto using quiet_onclose with quiet.
  - destruct (timers st) as [|t rest];
      at_state Hinv; apply gate_safe_quiet;
      auto using quiet_reconnect_timeout with quiet.
  - destruct (nth_error (images st) index) as [img|]; at_state Hinv.
    + apply gate_safe_bind.
      * apply gate_safe_quiet. quiet_tac.
      * intros _. apply gate_safe_img_onload.
    + apply gate_safe_quiet. quiet_tac.
  - at_state Hinv. apply gate_safe_quiet. quiet_tac.
  - at_state Hinv. apply gate_safe_loop.
Qed.

Lemma gate_safe_run (JSON_parse : string -> ParseResult) (es : list Event) :
  forall (st : State) (n : nat),
    gate_inv st n -> (peak (snd (run JSON_parse st es)) n <= 1)%nat.
Proof.
  induction es as [|e es IH]; intros st n Hinv; cbn [run].
  - cbn. destruct Hinv. lia.
  - unfold step.
    pose proof (gate_safe_dispatch JSON_parse e st n Hinv) as H.
    unfold keeps_gate in H.
    destruct (dispatch JSON_parse e st) as [[st1 t1] r]. cbn [fst].
    destruct H as [P1 I1]. specialize (IH st1 _ I1).
    destruct (run JSON_parse st1 es) as [st2 t2]. cbn [snd] in *.
    rewrite peak_app. lia.
Qed.

(** C1.  Along the trace of any sequence of events, from any state, the
    sends not yet followed by a processed-frame reply or a clearing of the
    gate never number more than one; [sendFrameToBackend] does nothing while
    the gate is set; and whenever it transmits, the gate was clear, it is
    written to true immediately before the transmission, and it is set
    afterwards. *)
Theorem single_frame_in_flight (JSON_parse : string -> ParseResult) :
  (forall (st : State) (es : list Event) (pre post : list Effect),
     snd (run JSON_parse st es) = (pre ++ post)%list ->
     (in_flight pre <= 1)%nat) /\
  (forall (cl : SendClosure) (env : CaptureEnv) (st : State),
     processingRef st = true ->
     sendFrameToBackend cl env st = (st, [], Return tt)) /\
  (forall (cl : SendClosure) (env : CaptureEnv) (st st' : State)
          (effs : list Effect) (r : Completion unit)
          (socket : nat) (message : FrameMessage),
     sendFrameToBackend cl env st = (st', effs, r) ->
     In (WsSend socket message) effs ->
     effs = [GateWrite true; WsSend socket message] /\
     processingRef st = false /\ processingRef st' = true).
Proof.
  split; [|split].
  - intros st es pre post E. unfold in_flight.
    assert (Hinv : gate_inv st 0) by (split; [lia | reflexivity]).
    pose proof (gate_safe_run JSON_parse es st 0 Hinv) as H.
    rewrite E in H. pose proof (count_le_peak pre post 0). lia.
  - intros cl env st G. unfold sendFrameToBackend.
    destruct (wsRef st); [|reflexivity].
    destruct (video env); [|reflexivity].
    rewrite G, orb_true_r. reflexivity.
  - intros cl env st st' effs r socket message E Hin.
    pose proof (sendFrameToBackend_cases cl env st) as H. rewrite E in H.
    destruct H as [[_ ->] | [(G & G' & s & m & ->) | (_ & _ & exn & [-> | ->])]].
    + destruct Hin.
    + destruct Hin as [Hin | [Hin | []]]; [discriminate|].
      injection Hin as -> ->. auto.
    + destruct Hin as [Hin | [Hin | []]]; discriminate.
    + destruct Hin as [Hin | [Hin | [Hin | []]]]; discriminate.
Qed.

Lemma single_frame_in_flight_witness :
  (in_flight (snd (run demo_parse initialState demo_session)) <= 1)%nat /\
  sendFrameToBackend (loop_send loop_closure) capture_env
    (set_processingRef true initialState)
  = (set_processingRef true initialState, [], Return tt) /\
  processingRef
    (fst (fst (sendFrameToBackend (loop_send loop_closure) capture_env
                 (fst (run demo_parse initialState
                         [ClickStart start_env; SocketOpen 0]))))) = true.
Proof.
  destruct (single_frame_in_flight demo_parse) as (H1 & H2 & H3).
  split; [|split].
  - apply (H1 initialState demo_session
              (snd (run demo_parse initialState demo_session)) []).
    rewrite app_nil_r. reflexivity.
  - apply H2. reflexivity.
  - set (st := fst (run demo_parse initialState [ClickStart start_env; SocketOpen 0])).
    destruct (sendFrameToBackend (loop_send loop_closure) capture_env st)
      as [[st' effs] r] eqn:E.
    refine (proj2 (proj2 (H3 (loop_send loop_closure) capture_env st st' effs r 0%nat
      {| frame_data := Some "/9j/4AAQSkZJRg=="; frame_timestamp := 1700000000100;
         frame_background := "blur"; frame_quality := "ultra";
         frame_edgeSmoothing := 85; frame_tier := "free" |} E _))).
    vm_compute in E. injection E as <- <- <-. right; left. reflexivity.
Defined.

(** ** Home: the connection manager *)

(** What [ws.onclose] schedules is decided by the flag its closure captured:
    one timer of 3000 ms when it is set, none otherwise; the reconnect
    counter is left as it is. *)
Lemma onclose_schedules_by_captured_flag (ws : WebSocket) (st : State) :
  match onclose ws st with
  | (st', effs, r) =>
      r = Return tt /\
      reconnectCount (connectionState st') = reconnectCount (connectionState st) /\
      if closure_isStreaming ws then
        effs = [ConsoleLog warning "Engine connection lost"; SetTimeout 3000] /\
        timers st' = (timers st ++ [{| delay := 3000; timer_closure_isStreaming := true |}])%list
      else
        effs = [ConsoleLog warning "Engine connection lost"] /\
        timers st' = timers st
  end.
Proof.
  unfold onclose. destruct ws as [r c]. cbn [closure_isStreaming].
  destruct c; cbn; auto.
Qed.

(** The timer callback counts one reconnect and calls [connectWebSocket]. *)
Lemma reconnect_timeout_counts (t : Timer) (st : State) :
  reconnectCount (connectionState (fst (fst (reconnect_timeout t st))))
  = S (reconnectCount (connectionState st)).
Proof.
  unfold reconnect_timeout, connectWebSocket, bind, get, setConnectionState, modify.
  cbn -[addLog].
  destruct (wsRef_is_OPEN _); cbn; lia.
Qed.

(** C2 on the code.  The socket that [startCamera] creates captured
    [isStreaming = false]: when it closes while the session is streaming, no
    timer is set and the counter stays at 0.  A socket created by the
    connect button while streaming captured [true]: when it closes after
    [stopCamera], with the streaming flag false, a reconnect is scheduled
    after 3000 ms, and the timer then counts a reconnect and opens a new
    socket. *)
Theorem reconnect_follows_captured_flag (JSON_parse : string -> ParseResult) :
  (let st := fst (run JSON_parse initialState [ClickStart start_env; SocketOpen 0]) in
   let out := step JSON_parse st (SocketClose 0) in
   isStreaming (streamState st) = true /\
   snd out = [ConsoleLog warning "Engine connection lost"] /\
   timers (fst out) = [] /\
   reconnectCount (connectionState (fst out)) = 0%nat) /\
  (let st := fst (run JSON_parse initialState
                    [ClickStart start_env; SocketError 0; SocketClose 0;
                     ClickConnectEngine; SocketOpen 1; ClickStop 1700000060000]) in
   let out := step JSON_parse st (SocketClose 1) in
   let out' := step JSON_parse (fst out) TimerFires in
   isStreaming (streamState st) = false /\
   snd out = [ConsoleLog warning "Engine connection lost"; SetTimeout 3000] /\
   timers (fst out) = [{| delay := 3000; timer_closure_isStreaming := true |}] /\
   reconnectCount (connectionState (fst out')) = 1%nat /\
   In (NewWebSocket engine_url) (snd out')).
Proof.
  split.
  - vm_compute. repeat split.
  - vm_compute. repeat split. right; left. reflexivity.
Qed.

(** The guard of [connectWebSocket]: when the current socket is open it
    does nothing, no socket is created and the state is unchanged. *)
Theorem connect_is_noop_when_open (captured : bool) (st : State) (i : nat)
    (ws : WebSocket) :
  wsRef st = Some i ->
  nth_error (sockets st) i = Some ws ->
  readyState ws = OPEN ->
  connectWebSocket captured st = (st, [], Return tt).
Proof.
  intros Hi Hws Hopen.
  unfold connectWebSocket, bind, get, wsRef_is_OPEN, socket_readyState.
  rewrite Hi, Hws. cbn [option_map]. rewrite Hopen. reflexivity.
Qed.

Lemma connect_is_noop_when_open_witness :
  connectWebSocket true
    (fst (run demo_parse initialState [ClickStart start_env; SocketOpen 0]))
  = (fst (run demo_parse initialState [ClickStart start_env; SocketOpen 0]),
     [], Return tt).
Proof.
  apply (connect_is_noop_when_open true _ 0%nat
           {| readyState := OPEN; closure_isStreaming := false |});
    reflexivity.
Defined.

(** The guard does not cover a socket that is still connecting: a second
    call then creates a second socket and replaces the current one. *)
Lemma connect_while_connecting_counterexample :
  let st := fst (step demo_parse initialState ClickConnectEngine) in
  let out := connectWebSocket false st in
  isConnecting (connectionState st) = true /\
  socket_readyState st 0 = Some CONNECTING /\
  out <> (st, [], Return tt) /\
  In (NewWebSocket engine_url) (snd (fst out)) /\
  List.length (sockets (fst (fst out))) = 2%nat /\
  wsRef (fst (fst out)) = Some 1%nat.
Proof.
  cbv zeta. split; [reflexivity|]. split; [reflexivity|].
  split; [vm_compute; discriminate|].
  split; [vm_compute; right; left; reflexivity|].
  split; reflexivity.
Qed.

(** Whenever the current socket is not open, also while it is connecting,
    [connectWebSocket] creates a socket and makes it the current one; the
    sockets created before stay as they are and none of them is closed. *)
Lemma connect_unless_open (captured : bool) (st : State) :
  wsRef_is_OPEN st = false ->
  snd (fst (connectWebSocket captured st))
  = [ConsoleLog info "Connecting to VirtualStage Engine..."; NewWebSocket engine_url] /\
  sockets (fst (fst (connectWebSocket captured st)))
  = (sockets st ++ [{| readyState := CONNECTING;
                       closure_isStreaming := captured |}])%list /\
  wsRef (fst (fst (connectWebSocket captured st))) = Some (List.length (sockets st)).
Proof.
  intros H. unfold connectWebSocket, bind, get. rewrite H. cbn. auto.
Qed.

(** C3 on the code.  [connectWebSocket] returns early only when the current
    socket is open, although the interface treats a connection that is being
    set up as one not to be started again.  On a freshly mounted component
    "Connect Engine" creates socket 0 and marks the connection as connecting;
    "Reconnect Engine", pressed before socket 0 has opened, creates socket 1
    and makes it the current one.  Both sockets open, a session is started
    and stopped: [stopCamera] closes socket 1 only, and socket 0 stays open
    with no reference to it left. *)
Theorem second_connect_orphans_first_socket (JSON_parse : string -> ParseResult) :
  let st1 := fst (run JSON_parse initialState [ClickConnectEngine]) in
  let second := dispatch JSON_parse ClickReconnectEngine st1 in
  let rest :=
    run JSON_parse (fst (fst second))
      [SocketOpen 0; SocketOpen 1; ClickStart start_env; ClickStop 1700000060000] in
  (isConnecting (connectionState st1) = true /\
   wsRef st1 = Some 0%nat /\
   socket_readyState st1 0 = Some CONNECTING) /\
  (snd (fst second)
   = [ConsoleLog info "Connecting to VirtualStage Engine..."; NewWebSocket engine_url] /\
   List.length (sockets (fst (fst second))) = 2%nat /\
   wsRef (fst (fst second)) = Some 1%nat /\
   socket_readyState (fst (fst second)) 0 = Some CONNECTING) /\
  (isStreaming (streamState (fst rest)) = false /\
   In (WsClose 1) (snd rest) /\
   ~ In (WsClose 0) (snd rest) /\
   socket_readyState (fst rest) 1 = Some CLOSING /\
   socket_readyState (fst rest) 0 = Some OPEN).
Proof.
  cbv zeta. split; [|split].
  - repeat split.
  - repeat split.
  - split; [reflexivity|]. split; [|split; [|split; reflexivity]].
    + vm_compute. tauto.
    + vm_compute. intros H.
      repeat (destruct H as [H | H]; [discriminate H|]). exact H.
Qed.

(** C8.  On a payload the parser rejects, [ws.onmessage] completes without
    an exception; its only effect is the logged decode error, the state
    changes in the log feed only, and the streaming flag, the in-flight gate
    and the processed-frame counter are as before. *)
Theorem unparsable_message_is_only_logged (JSON_parse : string -> ParseResult)
    (raw exn : string) (st : State) :
  JSON_parse raw = SyntaxError exn ->
  exists st' : State,
    onmessage JSON_parse raw st
    = (st', [ConsoleLog error ("Message parsing failed: " ++ exn)], Return tt) /\
    st' = set_logs
            (slice_last 7 (logs st)
             ++ [{| log_category := error;
                    log_message := "Message parsing failed: " ++ exn |}])%list st /\
    isStreaming (streamState st') = isStreaming (streamState st) /\
    processingRef st' = processingRef st /\
    processedFrames (sessionStats st') = processedFrames (sessionStats st).
Proof.
  intros Hparse. eexists. split.
  - unfold onmessage, try_catch. rewrite Hparse. cbn. reflexivity.
  - repeat split.
Qed.

Lemma unparsable_message_is_only_logged_witness :
  exists st' : State,
    onmessage demo_parse "not json"
      (fst (run demo_parse initialState demo_session))
    = (st', [ConsoleLog error "Message parsing failed: SyntaxError: Unexpected token"],
       Return tt) /\
    processingRef st' = true /\
    isStreaming (streamState st') = true /\
    processedFrames (sessionStats st') = 1%nat.
Proof.
  destruct (unparsable_message_is_only_logged demo_parse "not json"
              "SyntaxError: Unexpected token"
              (fst (run demo_parse initialState demo_session)) eq_refl)
    as (st' & E & _ & S & G & F).
  exists st'. split; [exact E|].
  split; [rewrite G; reflexivity|].
  split; [rewrite S; reflexivity | rewrite F; reflexivity].
Defined.

End HomeFacts.

(** ** Telemetry: further properties of the score and the grade *)

Module TelemetryMore.

Import Telemetry View TelemetryFacts.
Local Open Scope Q_scope.
Local Open Scope list_scope.

Lemma recent_window_app (older recent : list PerformanceData) :
  List.length recent = 10%nat -> recent_window (older ++ recent) = recent.
Proof.
  intros H. unfold recent_window, slice_last.
  rewrite length_app, H.
  replace (List.length older + 10 - 10)%nat with (List.length older) by lia.
  rewrite skipn_app, skipn_all, Nat.sub_diag. reflexivity.
Qed.

(** Only the last ten samples count: whatever was recorded before a full
    window leaves the score as it is. *)
Theorem score_ignores_older_samples (older recent : list PerformanceData) :
  List.length recent = 10%nat ->
  getPerformanceScore (older ++ recent) = getPerformanceScore recent.
Proof.
  intros H.
  assert (Hr : recent_window recent = recent)
    by (apply slice_last_all; rewrite H; apply Nat.le_refl).
  pose proof (recent_window_app older recent H) as Ho.
  destruct recent as [|r recent']; [discriminate|].
  unfold getPerformanceScore at 2. cbv zeta. rewrite Hr.
  destruct (older ++ r :: recent') as [|d l] eqn:E.
  - destruct older; discriminate.
  - unfold getPerformanceScore. cbv zeta. rewrite Ho. reflexivity.
Qed.

Lemma score_ignores_older_samples_witness :
  getPerformanceScore ([sample 1 900 100; sample 2 800 90] ++ repeat (sample 30 0 0) 10)
  = getPerformanceScore (repeat (sample 30 0 0) 10).
Proof.
  apply (score_ignores_older_samples
           [sample 1 900 100; sample 2 800 90] (repeat (sample 30 0 0) 10)).
  reflexivity.
Defined.

(** The stability term is the constant 25: with window averages that are
    not negative the score never falls below 25. *)
Theorem score_at_least_stability (data : list PerformanceData) :
  data <> [] ->
  0 <= avgFps (recent_window data) ->
  0 <= avgLatency (recent_window data) ->
  0 <= avgCpu (recent_window data) ->
  (25 <= getPerformanceScore data <= 100)%Z.
Proof.
  intros Hne Hf Hl Hc.
  pose proof (fpsScore_range _ Hf) as Bf.
  pose proof (penalty_range _ Hl) as Bl. fold (latencyScore (recent_window data)) in Bl.
  pose proof (penalty_range _ Hc) as Bc. fold (cpuScore (recent_window data)) in Bc.
  destruct data as [|d data']; [congruence|].
  unfold getPerformanceScore. cbv zeta.
  apply Math_round_bounds; unfold stabilityScore;
    change (inject_Z 25) with 25; change (inject_Z 100) with 100; lra.
Qed.

Lemma score_at_least_stability_witness :
  (25 <= getPerformanceScore [sample 0 5000 100] <= 100)%Z.
Proof.
  apply (score_at_least_stability [sample 0 5000 100]).
  - discriminate.
  - vm_compute. discriminate.
  - vm_compute. discriminate.
  - vm_compute. discriminate.
Defined.

Lemma Forall2_skipn {A : Type} (R : A -> A -> Prop) (n : nat) (l1 l2 : list A) :
  Forall2 R l1 l2 -> Forall2 R (skipn n l1) (skipn n l2).
Proof.
  intros H. revert n. induction H as [|a b l1 l2 Hab Hl IH]; intros n.
  - rewrite !skipn_nil. constructor.
  - destruct n as [|n]; cbn [skipn]; [constructor; assumption | apply IH].
Qed.

Lemma Forall2_same_length {A : Type} (R : A -> A -> Prop) (l1 l2 : list A) :
  Forall2 R l1 l2 -> List.length l1 = List.length l2.
Proof.
  induction 1; cbn [List.length]; congruence.
Qed.

Lemma reduce_sum_mono (f g : PerformanceData -> Q) (l1 l2 : list PerformanceData) :
  Forall2 (fun a b => f a <= g b) l1 l2 -> reduce_sum f l1 <= reduce_sum g l2.
Proof.
  induction 1 as [|a b l1 l2 Hab _ IH].
  - apply Qle_refl.
  - rewrite !reduce_sum_cons. lra.
Qed.

Lemma Qdiv_le_mono (a b c : Q) : 0 <= c -> a <= b -> a / c <= b / c.
Proof.
  intros Hc Hab. unfold Qdiv.
  apply Qmult_le_compat_r; [exact Hab|]. apply Qinv_le_0_compat. exact Hc.
Qed.

Lemma average_mono (f g : PerformanceData -> Q) (l1 l2 : list PerformanceData) :
  Forall2 (fun a b => f a <= g b) l1 l2 -> average f l1 <= average g l2.
Proof.
  intros H. unfold average.
  rewrite (Forall2_same_length _ _ _ H).
  apply Qdiv_le_mono; [|apply reduce_sum_mono; exact H].
  change 0 with (inject_Z 0). rewrite <- Zle_Qle. lia.
Qed.

(** Better readings never lower the score: when every sample of one list
    has at least the fps and at most the latency and cpu usage of the sample
    at the same position of another, its score is at least the other's. *)
Theorem score_is_monotone (data1 data2 : list PerformanceData) :
  Forall2 no_worse data1 data2 ->
  (getPerformanceScore data1 <= getPerformanceScore data2)%Z.
Proof.
  intros H.
  pose proof (Forall2_same_length _ _ _ H) as Hlen.
  assert (Hw : Forall2 no_worse (recent_window data1) (recent_window data2)).
  { unfold recent_window, slice_last. rewrite Hlen. apply Forall2_skipn. exact H. }
  destruct H as [|a b l1 l2 Hab Hrest]; [apply Z.le_refl|].
  unfold getPerformanceScore. cbv zeta.
  set (w1 := recent_window (a :: l1)) in *. set (w2 := recent_window (b :: l2)) in *.
  assert (Hf : avgFps w1 <= avgFps w2).
  { apply average_mono. eapply Forall2_impl; [|exact Hw]. intros x y Hxy. apply Hxy. }
  assert (Hl : avgLatency w2 <= avgLatency w1).
  { apply average_mono. apply Forall2_flip.
    eapply Forall2_impl; [|exact Hw]. intros x y Hxy. apply Hxy. }
  assert (Hc : avgCpu w2 <= avgCpu w1).
  { apply average_mono. apply Forall2_flip.
    eapply Forall2_impl; [|exact Hw]. intros x y Hxy. apply Hxy. }
  unfold Math_round. apply Qfloor_resp_le.
  assert (Sf : fpsScore w1 <= fpsScore w2).
  { unfold fpsScore, Math_min. apply Qmult_le_compat_r; [|lra].
    apply Q.min_le_compat_r. apply Qdiv_le_mono; lra. }
  assert (Sl : latencyScore w1 <= latencyScore w2).
  { unfold latencyScore, Math_max. apply Qmult_le_compat_r; [|lra].
    apply Q.max_le_compat_l.
    pose proof (Qdiv_le_mono _ _ 100 ltac:(lra) Hl). lra. }
  assert (Sc : cpuScore w1 <= cpuScore w2).
  { unfold cpuScore, Math_max. apply Qmult_le_compat_r; [|lra].
    apply Q.max_le_compat_l.
    pose proof (Qdiv_le_mono _ _ 100 ltac:(lra) Hc). lra. }
  lra.
Qed.

Lemma score_is_monotone_witness :
  (getPerformanceScore [sample 20 80 60; sample 25 40 50]
   <= getPerformanceScore [sample 24 80 30; sample 30 10 50])%Z.
Proof.
  apply (score_is_monotone [sample 20 80 60; sample 25 40 50]
                           [sample 24 80 30; sample 30 10 50]).
  repeat constructor; vm_compute; discriminate.
Defined.

(** The insights agree with the grade: the "excellent" line is shown exactly
    for grade "A+", the advice to reduce quality exactly for grades "C" and
    "D", and never both. *)
Theorem insights_agree_with_grade (score : Q) :
  (insight_excellent score = true <->
   grade (getPerformanceGrade score) = "A+"%string) /\
  (insight_reduce_quality score = true <->
   grade (getPerformanceGrade score) = "C"%string \/
   grade (getPerformanceGrade score) = "D"%string) /\
  (insight_excellent score && insight_reduce_quality score = false).
Proof.
  unfold insight_excellent, insight_reduce_quality, getPerformanceGrade.
  destruct (Qle_bool 90 score) eqn:E90; destruct (Qle_bool 80 score) eqn:E80;
    destruct (Qle_bool 70 score) eqn:E70; destruct (Qle_bool 60 score) eqn:E60;
    cbn [grade negb andb];
    try (apply Qle_bool_iff in E90); try (apply Qle_bool_iff in E80);
    try (apply Qle_bool_iff in E70); try (apply Qle_bool_iff in E60);
    repeat match goal with
           | H : Qle_bool ?a ?b = false |- _ =>
               assert (~ a <= b) by (rewrite <- Qle_bool_iff, H; discriminate);
               clear H
           end;
    try (exfalso; lra);
    (split; [split; (discriminate || reflexivity || (intros; reflexivity)) |
     split; [split; [discriminate || (intros _; tauto) |
                     intros [F | F]; (discriminate F || reflexivity)] | reflexivity]]).
Qed.

End TelemetryMore.

(** ** Recording and Home: the clock texts *)

Module ViewFacts.

Import Recording View RecordingFacts.














End ViewFacts.

(** ** Recording: further properties of the formatted size and the catalog *)

Module RecordingMore.

Import Recording View RecordingFacts.

(** The text of a positive byte count: the rounded quotient, a space, the
    unit. *)
Lemma formatFileSize_shape (bytes : Z) :
  (0 < bytes)%Z ->
  formatFileSize bytes
  = (string_of_Z (rounded bytes (k ^ unit_index bytes) / 100)
     ++ fraction_string (rounded bytes (k ^ unit_index bytes) mod 100))
    ++ " " ++ sizes_at (unit_index bytes).
Proof.
  intros Hb.
  destruct (unit_index_spec bytes Hb) as (I0 & _ & _).
  pose proof (k_pow_pos _ I0) as HK.
  unfold formatFileSize.
  replace (bytes =? 0)%Z with false by (symmetry; apply Z.eqb_neq; lia).
  replace (bytes <? 0)%Z with false by (symmetry; apply Z.ltb_ge; lia).
  cbv zeta.
  pose proof (hundredths_div bytes (k ^ unit_index bytes) HK) as Hn.
  pose proof (rounded_nonneg bytes (k ^ unit_index bytes) ltac:(lia) HK) as Hn0.
  rewrite parseFloat_toFixed2 by (rewrite Hn; exact Hn0).
  rewrite Hn.
  rewrite Number_toString_value by (apply Z.mod_pos_bound; lia).
  reflexivity.
Qed.

Lemma rounded_error (bytes K : Z) :
  (0 < K)%Z ->
  (200 * bytes - K < 2 * (rounded bytes K * K) <= 200 * bytes + K)%Z.
Proof.
  intros HK. unfold rounded.
  pose proof (Z.div_mod (200 * bytes + K) (2 * K) ltac:(lia)) as E.
  pose proof (Z.mod_pos_bound (200 * bytes + K) (2 * K) ltac:(lia)) as B.
  nia.
Qed.

(** The size shown is accurate to half a hundredth of its unit, and the
    number shown lies between 1 and 1024, both included. *)
Theorem formatFileSize_accuracy (bytes : Z) :
  (0 < bytes < k ^ 4)%Z ->
  exists v : Q,
    representedBytes (formatFileSize bytes) = Some v /\
    (inject_Z bytes - inject_Z (k ^ unit_index bytes) / 200 <= v
     <= inject_Z bytes + inject_Z (k ^ unit_index bytes) / 200)%Q /\
    (inject_Z (k ^ unit_index bytes) <= v
     <= 1024 * inject_Z (k ^ unit_index bytes))%Q.
Proof.
  intros Hb.
  destruct (representedBytes_formatFileSize bytes Hb) as (v & Ev & Hv).
  exists v. split; [exact Ev|].
  destruct (unit_index_spec bytes ltac:(lia)) as (I0 & Lo & Hi).
  pose proof (k_pow_pos _ I0) as HK.
  rewrite Z.pow_add_r, Z.pow_1_r in Hi by lia.
  pose proof (rounded_error bytes (k ^ unit_index bytes) HK) as [E1 E2].
  pose proof (rounded_lower bytes (k ^ unit_index bytes) HK Lo) as R1.
  pose proof (rounded_upper bytes (k ^ unit_index bytes) HK ltac:(lia)) as R2.
  unfold shown_hundredths in Hv.
  set (K := (k ^ unit_index bytes)%Z) in *.
  set (r := rounded bytes K) in *.
  assert (B1 : (100 * K <= r * K)%Z) by nia.
  assert (B2 : (r * K <= 102400 * K)%Z) by (unfold k in R2; nia).
  assert (E1' : (200 * bytes <= 2 * (r * K) + K)%Z) by lia.
  set (C := (r * K)%Z) in *.
  rewrite Zle_Qle in B1. rewrite inject_Z_mult in B1.
  rewrite Zle_Qle in B2. rewrite inject_Z_mult in B2.
  rewrite Zle_Qle in E1'. rewrite inject_Z_plus, !inject_Z_mult in E1'.
  rewrite Zle_Qle in E2. rewrite inject_Z_plus, !inject_Z_mult in E2.
  change (inject_Z 100) with 100%Q in *. change (inject_Z 102400) with 102400%Q in *.
  change (inject_Z 200) with 200%Q in *. change (inject_Z 2) with 2%Q in *.
  assert (D : (v == inject_Z C * (1 # 100))%Q) by (rewrite Hv; field).
  assert (D2 : (inject_Z K / 200 == inject_Z K * (1 # 200))%Q) by field.
  rewrite D, D2. split; split; lra.
Qed.

Lemma formatFileSize_accuracy_witness :
  exists v : Q,
    representedBytes (formatFileSize 1048575) = Some v /\
    (inject_Z 1048575 - inject_Z (k ^ unit_index 1048575) / 200 <= v
     <= inject_Z 1048575 + inject_Z (k ^ unit_index 1048575) / 200)%Q /\
    (inject_Z (k ^ unit_index 1048575) <= v
     <= 1024 * inject_Z (k ^ unit_index 1048575))%Q.
Proof.
  apply (formatFileSize_accuracy 1048575). vm_compute. split; reflexivity.
Defined.

(** *** Scaling by 1024 *)

Lemma unit_index_scale (bytes : Z) :
  (0 < bytes)%Z -> unit_index (k * bytes) = (unit_index bytes + 1)%Z.
Proof.
  intros Hb. unfold unit_index, k.
  change 1024%Z with (2 ^ 10)%Z. rewrite Z.mul_comm.
  rewrite Z.log2_mul_pow2 by lia.
  replace (10 + Z.log2 bytes)%Z with (1 * 10 + Z.log2 bytes)%Z by lia.
  rewrite Z.div_add_l by lia. lia.
Qed.

Lemma rounded_scale (bytes K : Z) :
  (0 < K)%Z -> rounded (k * bytes) (k * K) = rounded bytes K.
Proof.
  intros HK. unfold rounded.
  replace (200 * (k * bytes) + k * K)%Z with (k * (200 * bytes + K))%Z by lia.
  replace (2 * (k * K))%Z with (k * (2 * K))%Z by lia.
  apply Z.div_mul_cancel_l; unfold k; lia.
Qed.

(** Up to 1024^4 bytes the quotient by the unit is a number that binary64
    holds exactly, for the byte count and for 1024 times it alike. *)
Lemma formatFileSize_times_k (bytes : Z) :
  (0 < bytes < k ^ 4)%Z ->
  exists num : string,
    formatFileSize bytes = num ++ " " ++ sizes_at (unit_index bytes) /\
    formatFileSize (k * bytes) = num ++ " " ++ sizes_at (unit_index bytes + 1).
Proof.
  intros [Hb _].
  destruct (unit_index_spec bytes Hb) as (I0 & _ & _).
  pose proof (k_pow_pos _ I0) as HK.
  eexists. split; [apply formatFileSize_shape; exact Hb|].
  rewrite formatFileSize_shape by (unfold k; lia).
  rewrite unit_index_scale by exact Hb.
  rewrite Z.pow_add_r, Z.pow_1_r by lia.
  rewrite (Z.mul_comm (k ^ unit_index bytes) k), rounded_scale by exact HK.
  reflexivity.
Qed.

(** Below 1024^4 bytes, a byte count 1024 times as large is shown with the
    same number and the next entry of the unit table; past "GB" that entry
    is missing and the text ends in "undefined". *)
Theorem formatFileSize_scale (bytes : Z) :
  (0 < bytes < k ^ 4)%Z ->
  exists num : string,
    formatFileSize bytes = num ++ " " ++ sizes_at (unit_index bytes) /\
    formatFileSize (k * bytes) = num ++ " " ++ sizes_at (unit_index bytes + 1).
Proof. exact (formatFileSize_times_k bytes). Qed.

Lemma formatFileSize_scale_witness :
  exists num : string,
    formatFileSize 150000 = num ++ " " ++ sizes_at (unit_index 150000) /\
    formatFileSize (k * 150000) = num ++ " " ++ sizes_at (unit_index 150000 + 1).
Proof.
  apply (formatFileSize_scale 150000). unfold k. lia.
Defined.

(** *** The storage total *)

Lemma take_digits_before_space (a u u' : string) :
  fst (take_digits (a ++ String " " u)) = fst (take_digits (a ++ String " " u')) /\
  after_point (snd (take_digits (a ++ String " " u)))
  = after_point (snd (take_digits (a ++ String " " u'))).
Proof.
  induction a as [|c a [IH1 IH2]].
  - split; reflexivity.
  - cbn [append take_digits]. destruct (is_digit c) eqn:Hc.
    + destruct (take_digits (a ++ String " " u)) as [d r].
      destruct (take_digits (a ++ String " " u')) as [d' r'].
      cbn [fst snd] in *. split; [f_equal; exact IH1 | exact IH2].
    + cbn [fst snd after_point]. split; [reflexivity|].
      destruct (Ascii.eqb c "."); [exact IH1 | reflexivity].
Qed.

(** What [parseFloat] reads from a text ends at its first space at the
    latest. *)
Lemma parseFloat_prefix_before_space (a u u' : string) :
  parseFloat_prefix (a ++ " " ++ u) = parseFloat_prefix (a ++ " " ++ u').
Proof.
  change (" " ++ u) with (String " " u). change (" " ++ u') with (String " " u').
  unfold parseFloat_prefix.
  destruct (take_digits_before_space a u u') as [H1 H2].
  destruct (take_digits (a ++ String " " u)) as [d r].
  destruct (take_digits (a ++ String " " u')) as [d' r'].
  cbn [fst snd] in *. rewrite H1, H2. reflexivity.
Qed.

(** The sum behind "Storage Used" reads the number of each size text and
    not its unit: below 1024^4 bytes, a recording 1024 times as large as
    another is read as the same number, so every number the sum adds, and
    the sum, stay as they are. *)
Theorem storage_total_ignores_units (before after : list RecordingEntry)
    (e e' : RecordingEntry) (bytes : Z) :
  (0 < bytes < k ^ 4)%Z ->
  size e = formatFileSize bytes ->
  size e' = formatFileSize (k * bytes) ->
  map (fun r => parseFloat_prefix (size r)) (before ++ e :: after)%list
  = map (fun r => parseFloat_prefix (size r)) (before ++ e' :: after)%list /\
  storage_total (before ++ e :: after)%list
  = storage_total (before ++ e' :: after)%list.
Proof.
  intros Hb He He'.
  destruct (formatFileSize_times_k bytes Hb) as (num & E1 & E2).
  assert (Hp : parseFloat_prefix (size e) = parseFloat_prefix (size e')).
  { rewrite He, He', E1, E2. apply parseFloat_prefix_before_space. }
  split.
  - rewrite !map_app. cbn [map]. rewrite Hp. reflexivity.
  - unfold storage_total.
    rewrite !fold_left_app. cbn [fold_left]. rewrite Hp. reflexivity.
Qed.

Lemma storage_total_ignores_units_witness :
  storage_total ([entry_of_size "2.5 MB"] ++ entry_of_size "1000 Bytes" :: [])%list
  = storage_total ([entry_of_size "2.5 MB"] ++ entry_of_size "1000 KB" :: [])%list.
Proof.
  apply (storage_total_ignores_units [entry_of_size "2.5 MB"] []
           (entry_of_size "1000 Bytes") (entry_of_size "1000 KB") 1000).
  - unfold k. lia.
  - reflexivity.
  - reflexivity.
Defined.

(** The storage bar is full from ten recordings on and grows by ten percent
    per recording before. *)
Theorem storageBarWidth_saturates (recordings : list RecordingEntry) :
  ((List.length recordings <= 10)%nat ->
   (storageBarWidth recordings == inject_Z (10 * Z.of_nat (List.length recordings)))%Q) /\
  ((10 <= List.length recordings)%nat ->
   (storageBarWidth recordings == 100)%Q).
Proof.
  unfold storageBarWidth.
  set (n := Z.of_nat (List.length recordings)).
  assert (D : (inject_Z n / 10 * 100 == inject_Z (10 * n))%Q).
  { rewrite inject_Z_mult. change (inject_Z 10) with 10%Q. field. }
  rewrite D. split; intros H.
  - apply Q.min_l. change 100%Q with (inject_Z 100). rewrite <- Zle_Qle. lia.
  - apply Q.min_r. change 100%Q with (inject_Z 100). rewrite <- Zle_Qle. lia.
Qed.

Lemma storageBarWidth_saturates_witness :
  (storageBarWidth (repeat (entry_of_size "1 MB") 12) == 100)%Q.
Proof.
  apply (proj2 (storageBarWidth_saturates (repeat (entry_of_size "1 MB") 12))).
  vm_compute. repeat constructor.
Defined.

(** *** The catalog and the chunk buffer *)

Lemma formatFileSize_zero_iff (bytes : Z) :
  (0 <= bytes)%Z -> (formatFileSize bytes = "0 Bytes" <-> bytes = 0%Z).
Proof.
  intros Hb. split; [|intros ->; reflexivity].
  intros H. destruct (Z.eq_dec bytes 0) as [E | NE]; [exact E | exfalso].
  assert (Hpos : (0 < bytes)%Z) by lia.
  destruct (unit_index_spec bytes Hpos) as (I0 & Lo & _).
  pose proof (k_pow_pos _ I0) as HK.
  pose proof (rounded_lower bytes _ HK Lo) as Hr.
  rewrite formatFileSize_shape in H by exact Hpos.
  set (n := rounded bytes (k ^ unit_index bytes)) in *.
  pose proof (Z.mod_pos_bound n 100 ltac:(lia)) as Hm.
  apply (f_equal (split_on " ")) in H.
  change (" " ++ sizes_at (unit_index bytes))
    with (String " " (sizes_at (unit_index bytes))) in H.
  rewrite split_on_first in H by (apply number_no_space; exact Hm).
  cbn in H. injection H as Hnum _.
  destruct (parseFloat_number (n / 100) (n mod 100)
              ltac:(apply Z.div_pos; lia) Hm) as (q & Eq & Hq).
  rewrite Hnum in Eq. cbn in Eq. injection Eq as <-.
  assert (H1 : (1 <= n / 100)%Z) by (apply Z.div_le_lower_bound; lia).
  rewrite Zle_Qle in H1. change (inject_Z 1) with 1%Q in H1.
  assert (H2 : (0 <= n mod 100 # 100)%Q) by (unfold Qle; cbn; lia).
  change (inject_Z 0) with 0%Q in Hq. lra.
Qed.

Lemma Blob_of_positive (chunks : list Blob) :
  Forall (fun b => (0 < blob_size b)%Z) chunks ->
  (0 <= blob_size (Blob_of chunks))%Z /\
  (blob_size (Blob_of chunks) = 0%Z <-> chunks = []).
Proof.
  unfold Blob_of. cbn [blob_size].
  induction 1 as [|b l Hb _ [IH1 IH2]]; cbn [fold_right].
  - split; [lia | tauto].
  - split; [lia|]. split; [lia | discriminate].
Qed.

Lemma step_chunks_positive (st : Studio) (e : StudioEvent) :
  chunks_positive st -> chunks_positive (studio_step st e).
Proof.
  unfold chunks_positive. intros H.
  destruct e; cbn [studio_step].
  - unfold startRecording. destruct canvas, recorder_throws; cbn; auto.
  - unfold ondataavailable. destruct (mediaRecorderRef st); [|exact H].
    destruct (blob_size data >? 0)%Z eqn:E; [|exact H].
    cbn [recordedChunksRef]. apply Forall_app. split; [exact H|].
    constructor; [|constructor]. apply Z.gtb_lt. exact E.
  - unfold interval_tick. destruct (existsb _ _); exact H.
  - unfold stopRecording. destruct (mediaRecorderRef st); [|exact H].
    destruct (isRecording st); exact H.
  - destruct (stopEvents st); exact H.
Qed.

(** Empty chunks are never buffered, so a finalized recording is shown as
    "0 Bytes" exactly when no chunk was collected. *)
Theorem empty_size_iff_no_chunk (st : Studio) (es : list StudioEvent)
    (mr : MediaRecorder) (env : StopEnv) :
  chunks_positive st ->
  chunks_positive (studio_run st es) /\
  match recordings (onstop mr env (studio_run st es)) with
  | entry :: _ =>
      size entry = "0 Bytes" <-> recordedChunksRef (studio_run st es) = []
  | [] => False
  end.
Proof.
  intros H.
  assert (Hrun : chunks_positive (studio_run st es)).
  { unfold studio_run. revert st H.
    induction es as [|e es IH]; intros st H; cbn [fold_left]; [exact H|].
    apply IH, step_chunks_positive, H. }
  split; [exact Hrun|].
  cbn [onstop recordings size].
  destruct (Blob_of_positive _ Hrun) as [H0 Hz].
  rewrite formatFileSize_zero_iff by exact H0. exact Hz.
Qed.

Lemma empty_size_iff_no_chunk_witness :
  chunks_positive
    (studio_run initialStudio
       [StartRecording true false; DataAvailable {| blob_size := 0 |}; StopRecording]) /\
  size (hd (entry_of_size "")
          (recordings
             (studio_run initialStudio
                [StartRecording true false; DataAvailable {| blob_size := 0 |};
                 StopRecording; RecorderStop sample_env])))
  = "0 Bytes".
Proof.
  pose proof (empty_size_iff_no_chunk initialStudio
    [StartRecording true false; DataAvailable {| blob_size := 0 |}; StopRecording]
    {| recorder_active := true; onstop_recordingTime := 0 |} sample_env
    (Forall_nil _)) as [H1 H2].
  split; [exact H1|]. apply H2. reflexivity.
Defined.

Lemma step_catalog (st : Studio) (e : StudioEvent) :
  recordings (studio_step st e) = recordings st \/
  (is_recorder_stop e = true /\
   exists entry, recordings (studio_step st e) = entry :: recordings st).
Proof.
  destruct e; cbn [studio_step is_recorder_stop].
  - left. unfold startRecording. destruct canvas, recorder_throws; reflexivity.
  - left. unfold ondataavailable. destruct (mediaRecorderRef st); [|reflexivity].
    destruct (blob_size data >? 0)%Z; reflexivity.
  - left. unfold interval_tick. destruct (existsb _ _); reflexivity.
  - left. unfold stopRecording. destruct (mediaRecorderRef st); [|reflexivity].
    destruct (isRecording st); reflexivity.
  - destruct (stopEvents st) as [|mr rest]; [left; reflexivity|].
    right. split; [reflexivity|]. eexists. reflexivity.
Qed.

(** The catalog is only ever prepended to: after any events the entries it
    had are still there, unchanged and in order, behind the new ones, and
    there is at most one new entry per stop event of a recorder. *)
Theorem catalog_only_grows (st : Studio) (es : list StudioEvent) :
  exists added : list RecordingEntry,
    recordings (studio_run st es) = (added ++ recordings st)%list /\
    (List.length added <= List.length (filter is_recorder_stop es))%nat.
Proof.
  unfold studio_run. revert st.
  induction es as [|e es IH]; intros st; cbn [fold_left].
  - exists []. split; [reflexivity | cbn; lia].
  - destruct (IH (studio_step st e)) as (added & E & L).
    destruct (step_catalog st e) as [H | (He & entry & H)].
    + exists added. rewrite E, H. split; [reflexivity|].
      cbn [filter]. destruct (is_recorder_stop e); cbn [List.length]; lia.
    + exists (added ++ [entry])%list. rewrite E, H, <- app_assoc.
      split; [reflexivity|].
      cbn [filter]. rewrite He, length_app. cbn [List.length]. lia.
Qed.

(** Stopping twice is stopping once: a second [stopRecording] changes
    nothing and queues no second stop event. *)
Theorem stopRecording_idempotent (st : Studio) :
  stopRecording (stopRecording st) = stopRecording st.
Proof.
  destruct (mediaRecorderRef st) as [mr|] eqn:Em.
  - destruct (isRecording st) eqn:Er.
    + unfold stopRecording at 2 3. rewrite Em, Er. reflexivity.
    + assert (E : stopRecording st = st)
        by (unfold stopRecording; rewrite Em, Er; reflexivity).
      rewrite !E. reflexivity.
  - assert (E : stopRecording st = st)
      by (unfold stopRecording; rewrite Em; reflexivity).
    rewrite !E. reflexivity.
Qed.

Lemma finalize_prepends_witness :
  exists entry : RecordingEntry,
    recordings
      (studio_run initialStudio
         (finalize_scenario (fresh_handle (intervals initialStudio))
            segment segment segment sample_env))
    = entry :: recordings initialStudio /\
    duration entry = recordingTime initialStudio /\
    size entry = formatFileSize (blob_size segment + blob_size segment + blob_size segment) /\
    recordingTime
      (studio_run initialStudio
         (finalize_scenario (fresh_handle (intervals initialStudio))
            segment segment segment sample_env)) = 3%nat.
Proof.
  apply (finalize_prepends initialStudio segment segment segment sample_env);
    reflexivity.
Defined.

End RecordingMore.

(** ** The AI features panel *)

Module AIFeaturesFacts.

Import AIFeatures.

Lemma slice_last_snoc {A : Type} (n : nat) (l : list A) (x : A) :
  (slice_last n l ++ [x])%list = slice_last (S n) (l ++ [x])%list.
Proof.
  unfold slice_last. rewrite length_app. cbn [List.length].
  replace (List.length l + 1 - S n)%nat with (List.length l - n)%nat by lia.
  rewrite skipn_app.
  replace (List.length l - n - List.length l)%nat with 0%nat by lia.
  reflexivity.
Qed.

Lemma slice_last_twice {A : Type} (n m : nat) (l : list A) :
  (n <= m)%nat -> slice_last n (slice_last m l) = slice_last n l.
Proof.
  intros H. unfold slice_last. rewrite length_skipn, skipn_skipn. f_equal. lia.
Qed.

Lemma slice_last_short {A : Type} (n : nat) (l : list A) :
  (List.length l <= n)%nat -> slice_last n l = l.
Proof.
  intros H. unfold slice_last.
  replace (List.length l - n)%nat with 0%nat by lia. reflexivity.
Qed.

Lemma slice_last_absorb {A : Type} (n : nat) (l t : list A) :
  slice_last n (slice_last n l ++ t)%list = slice_last n (l ++ t)%list.
Proof.
  unfold slice_last.
  rewrite !length_app, length_skipn, !skipn_app, skipn_skipn, length_skipn.
  f_equal; f_equal; lia.
Qed.

(** After any gestures the history holds the last five of what it held and
    what came in, in order, and every gesture has been passed on, also those
    the history no longer holds. *)
Theorem gesture_history_is_last_five (gestures : list string) (st : Panel) :
  (List.length (gestureHistory st) <= 5)%nat ->
  gestureHistory (fst (handleGestures gestures st))
  = slice_last 5 (gestureHistory st ++ gestures)%list /\
  (List.length (gestureHistory (fst (handleGestures gestures st))) <= 5)%nat /\
  snd (handleGestures gestures st) = map OnGestureDetected gestures /\
  emotionHistory (fst (handleGestures gestures st)) = emotionHistory st /\
  features (fst (handleGestures gestures st)) = features st.
Proof.
  revert st. induction gestures as [|g gestures IH]; intros st H.
  - cbn [handleGestures fst snd map]. rewrite app_nil_r, slice_last_short by exact H.
    repeat split; exact H.
  - cbn [handleGestures]. unfold handleGesture.
    set (st1 := {| features := features st;
                   gestureHistory := (slice_last 4 (gestureHistory st) ++ [g])%list;
                   emotionHistory := emotionHistory st |}).
    assert (H1 : gestureHistory st1 = slice_last 5 (gestureHistory st ++ [g])%list)
      by apply slice_last_snoc.
    assert (L1 : (List.length (gestureHistory st1) <= 5)%nat).
    { rewrite H1, slice_last_length. lia. }
    destruct (IH st1 L1) as (E & L & C & Em & F).
    destruct (handleGestures gestures st1) as [st2 c2]. cbn [fst snd] in *.
    split; [|split; [exact L | split; [cbn; now rewrite C | split; assumption]]].
    rewrite E, H1, slice_last_absorb, <- app_assoc. reflexivity.
Qed.

Lemma gesture_history_is_last_five_witness :
  gestureHistory
    (fst (handleGestures ["a"; "b"; "c"; "d"; "e"; "f"; "g"] initialPanel))
  = ["c"; "d"; "e"; "f"; "g"].
Proof.
  destruct (gesture_history_is_last_five
              ["a"; "b"; "c"; "d"; "e"; "f"; "g"] initialPanel) as [H _].
  - cbn. lia.
  - rewrite H. reflexivity.
Defined.

(** Toggling a feature flips that feature and no other, and toggling it
    again restores the settings. *)
Theorem toggleFeature_flips_one (key key' : FeatureKey) (f : Features) :
  (key = key' -> feature (toggleFeature key f) key' = negb (feature f key')) /\
  (key <> key' -> feature (toggleFeature key f) key' = feature f key') /\
  toggleFeature key (toggleFeature key f) = f.
Proof.
  split; [|split].
  - intros <-. destruct key; reflexivity.
  - intros H. destruct key, key'; try reflexivity; congruence.
  - destruct f, key; cbn; rewrite negb_involutive; reflexivity.
Qed.

Lemma toggleFeature_flips_one_witness :
  feature (toggleFeature GestureControl (features initialPanel)) GestureControl = true /\
  feature (toggleFeature GestureControl (features initialPanel)) SmartCropping = false.
Proof.
  split.
  - apply (proj1 (toggleFeature_flips_one GestureControl GestureControl
                    (features initialPanel))). reflexivity.
  - apply (proj1 (proj2 (toggleFeature_flips_one GestureControl SmartCropping
                           (features initialPanel)))). discriminate.
Defined.

End AIFeaturesFacts.

(** ** Home: further properties of the handlers *)

Module HomeMoreFacts.

Import Home HomeMore HomeFacts.

(** *** Properties kept by handler code *)

Section Preserves.

Variable P : State -> Prop.

Lemma preserves_ret {A : Type} (a : A) : preserves P (ret a).
Proof. intros st H. exact H. Qed.

Lemma preserves_throw {A : Type} (exn : string) : preserves P (@throw A exn).
Proof. intros st H. exact H. Qed.

Lemma preserves_get {A : Type} (f : State -> A) : preserves P (get f).
Proof. intros st H. exact H. Qed.

Lemma preserves_emit (e : Effect) : preserves P (emit e).
Proof. intros st H. exact H. Qed.

Lemma preserves_modify (f : State -> State) :
  (forall st, P st -> P (f st)) -> preserves P (modify f).
Proof. intros Hf st H. apply Hf, H. Qed.

Lemma preserves_bind {A B : Type} (c : M A) (f : A -> M B) :
  preserves P c -> (forall a, preserves P (f a)) -> preserves P (bind c f).
Proof.
  intros Hc Hf st H. specialize (Hc st H).
  unfold state_after, bind in *.
  destruct (c st) as [[st1 e1] [a | exn]]; cbn [fst] in *.
  - specialize (Hf a st1 Hc). unfold state_after in Hf.
    destruct (f a st1) as [[st2 e2] r]. exact Hf.
  - exact Hc.
Qed.

Lemma preserves_try_catch (body : Handler) (handler : string -> Handler) :
  preserves P body -> (forall exn, preserves P (handler exn)) ->
  preserves P (try_catch body handler).
Proof.
  intros Hc Hf st H. specialize (Hc st H).
  unfold state_after, try_catch in *.
  destruct (body st) as [[st1 e1] [a | exn]]; cbn [fst] in *.
  - exact Hc.
  - specialize (Hf exn st1 Hc). unfold state_after in Hf.
    destruct (handler exn st1) as [[st2 e2] r]. exact Hf.
Qed.

Lemma preserves_if {A : Type} (b : bool) (c1 c2 : M A) :
  preserves P c1 -> preserves P c2 -> preserves P (if b then c1 else c2).
Proof. destruct b; auto. Qed.

End Preserves.

(** Break handler code down to its state updates, which [side] has to
    settle. *)
Ltac preserve side :=
  lazymatch goal with
  | |- preserves _ (bind _ _) =>
      apply preserves_bind; [preserve side | intro; preserve side]
  | |- preserves _ (try_catch _ _) =>
      apply preserves_try_catch; [preserve side | intro; preserve side]
  | |- preserves _ (if _ then _ else _) => apply preserves_if; preserve side
  | |- preserves _ (match ?x with _ => _ end) => destruct x; preserve side
  | |- preserves _ (ret _) => apply preserves_ret
  | |- preserves _ skip => apply preserves_ret
  | |- preserves _ (throw _) => apply preserves_throw
  | |- preserves _ (get _) => apply preserves_get
  | |- preserves _ (emit _) => apply preserves_emit
  | |- preserves _ (modify _) => apply preserves_modify; side
  | |- preserves _ (setConnectionState _) => unfold setConnectionState; preserve side
  | |- preserves _ (setStreamState _) => unfold setStreamState; preserve side
  | |- preserves _ (setSessionStats _) => unfold setSessionStats; preserve side
  | |- preserves _ (setPerformanceMetrics _) =>
      unfold setPerformanceMetrics; preserve side
  | |- preserves _ (write_processingRef _) => unfold write_processingRef; preserve side
  | |- preserves _ (addLog _ _) => unfold addLog; preserve side
  | |- preserves _ (connectWebSocket _) => unfold connectWebSocket; preserve side
  | |- preserves _ onopen => unfold onopen; preserve side
  | |- preserves _ onerror => unfold onerror; preserve side
  | |- preserves _ (onclose _) => unfold onclose; preserve side
  | |- preserves _ (reconnect_timeout _) => unfold reconnect_timeout; preserve side
  | |- preserves _ (handleWebSocketMessage _) =>
      unfold handleWebSocketMessage; preserve side
  | |- preserves _ (onmessage _ _) => unfold onmessage; preserve side
  | |- preserves _ (img_onload _ _) => unfold img_onload; preserve side
  | |- preserves _ (ws_close _) => unfold ws_close; preserve side
  | |- preserves _ (checkTierLimits _ _ _) => unfold checkTierLimits; preserve side
  | |- preserves _ (loop _ _ _) => unfold loop; preserve side
  | |- preserves _ _ => side
  end.

(** Reduce a goal on the state after a handler to the handler. *)
Ltac after_handler H :=
  lazymatch goal with
  | |- ?P (state_after (?h ?st)) =>
      cut (preserves P h); [intros Hpres; exact (Hpres st H)|]
  end.

(** A state update that does not touch what the property reads. *)
Ltac untouched := let s := fresh "s" in let H := fresh "H" in intros s H; exact H.

(** *** The activity feed *)

Lemma addLog_entry_bounded (entry : LogEntry) (st : State) :
  logs_bounded (set_logs (slice_last 7 (logs st) ++ [entry])%list st).
Proof.
  unfold logs_bounded. cbn [logs set_logs].
  rewrite length_app, slice_last_length. cbn [List.length]. lia.
Qed.

Ltac logs_side :=
  first [ untouched | intros ? _; apply addLog_entry_bounded ].

Lemma logs_bounded_sendFrameToBackend (cl : SendClosure) (env : CaptureEnv) :
  preserves logs_bounded (sendFrameToBackend cl env).
Proof.
  intros st H. unfold sendFrameToBackend.
  destruct (wsRef st); [|exact H]. destruct (video env); [|exact H].
  destruct (negb (wsRef_is_OPEN st) || processingRef st); [exact H|].
  destruct (negb (video_readyState v =? 4)%Z); [exact H|].
  after_handler H. preserve logs_side.
Qed.

Lemma logs_bounded_startCamera (env : StartEnv) :
  preserves logs_bounded (startCamera env).
Proof.
  intros st H. unfold startCamera. after_handler H. preserve logs_side.
Qed.

Lemma logs_bounded_stopCamera (date_now : Z) :
  preserves logs_bounded (stopCamera date_now).
Proof.
  intros st H. unfold stopCamera. after_handler H. preserve logs_side.
Qed.

Lemma logs_bounded_dispatch (JSON_parse : string -> ParseResult) (e : Event) :
  preserves logs_bounded (dispatch JSON_parse e).
Proof.
  intros st H. destruct e; cbn [dispatch].
  - apply logs_bounded_startCamera, H.
  - apply logs_bounded_stopCamera, H.
  - destruct (negb _ && negb _); after_handler H; preserve logs_side.
  - after_handler H. preserve logs_side.
  - destruct (socket_readyState st socket) as [[| | |]|];
      after_handler H; preserve logs_side.
  - destruct (socket_readyState st socket) as [[| | |]|];
      after_handler H; preserve logs_side.
  - destruct (socket_readyState st socket) as [[| | |]|];
      after_handler H; preserve logs_side.
  - destruct (nth_error (sockets st) socket) as [ws|];
      [destruct (readyState ws)|]; after_handler H; preserve logs_side.
  - destruct (timers st) as [|t rest]; after_handler H; preserve logs_side.
  - destruct (nth_error (images st) index) as [img|];
      after_handler H; preserve logs_side.
  - after_handler H. preserve logs_side.
  - after_handler H. unfold loop.
    destruct (loop_isStreaming cl && loop_isConnected cl); [|preserve logs_side].
    apply preserves_bind; [apply logs_bounded_sendFrameToBackend|].
    intro. preserve logs_side.
Qed.

(** The activity feed never grows past eight entries, whatever happens. *)
Theorem logs_stay_bounded (JSON_parse : string -> ParseResult)
    (es : list Event) (st : State) :
  logs_bounded st -> logs_bounded (fst (run JSON_parse st es)).
Proof.
  revert st. induction es as [|e es IH]; intros st H; cbn [run]; [exact H|].
  unfold step.
  pose proof (logs_bounded_dispatch JSON_parse e st H) as H1.
  unfold state_after in H1.
  destruct (dispatch JSON_parse e st) as [[st1 t1] r]. cbn [fst] in *.
  specialize (IH st1 H1).
  destruct (run JSON_parse st1 es) as [st2 t2]. exact IH.
Qed.

Lemma logs_stay_bounded_witness :
  logs_bounded (fst (run demo_parse initialState
                       (demo_session ++ [ClickStop 1700000060000; SocketClose 0]))).
Proof.
  apply (logs_stay_bounded demo_parse
           (demo_session ++ [ClickStop 1700000060000; SocketClose 0]) initialState).
  unfold logs_bounded. cbn. lia.
Defined.

(** *** Inbound messages *)

#[local] Hint Resolve quiet_ret quiet_skip quiet_throw quiet_get quiet_bind
  quiet_try_catch quiet_if quiet_addLog quiet_connectWebSocket : quiet.
#[local] Hint Extern 1 (quiet (emit _)) => (apply quiet_emit; exact I) : quiet.
#[local] Hint Extern 1 (quiet (modify _)) => (apply quiet_modify; reflexivity) : quiet.

Lemma quiet_at {A : Type} (c : M A) (st : State) :
  quiet c ->
  processingRef (state_after (c st)) = processingRef st /\
  Forall quiet_effect (effects_of (c st)).
Proof.
  intros H. specialize (H st). unfold state_after, effects_of.
  destruct (c st) as [[st' effs] r]. exact H.
Qed.

Lemma quiet_effect_no_send (e : Effect) : quiet_effect e -> no_send e.
Proof. unfold no_send. destruct e; cbn; tauto. Qed.

(** Whatever the payload, [ws.onmessage] lets no exception escape, sends
    nothing, and leaves the streaming flag, the in-flight gate and the frame
    counter as they are: a reply counts only when its image has loaded. *)
Theorem onmessage_never_disturbs (JSON_parse : string -> ParseResult)
    (raw : string) (st : State) :
  completion_of (onmessage JSON_parse raw st) = Return tt /\
  same_session st (state_after (onmessage JSON_parse raw st)) /\
  Forall no_send (effects_of (onmessage JSON_parse raw st)).
Proof.
  split; [|split].
  - unfold onmessage, try_catch, completion_of.
    destruct (match JSON_parse raw with
              | Parsed data => handleWebSocketMessage data
              | SyntaxError exn => throw exn
              end st) as [[st1 e1] [[] | exn]]; reflexivity.
  - assert (H : same_session st st) by (repeat split).
    after_handler H. preserve untouched.
  - destruct (quiet_at _ st (quiet_onmessage JSON_parse raw)) as [_ Q].
    eapply Forall_impl; [|exact Q]. exact quiet_effect_no_send.
Qed.

(** *** Frames dropped while one is in flight *)

Lemma sendFrameToBackend_gated (cl : SendClosure) (env : CaptureEnv) (st : State) :
  processingRef st = true ->
  sendFrameToBackend cl env st = (st, [], Return tt).
Proof.
  intros G. unfold sendFrameToBackend.
  destruct (wsRef st); [|reflexivity]. destruct (video env); [|reflexivity].
  rewrite G, orb_true_r. reflexivity.
Qed.

Lemma stays_gated_bind {A B : Type} (c : M A) (f : A -> M B) (a : A) (st : State) :
  c st = (st, [], Return a) -> quiet (f a) -> processingRef st = true ->
  stays_gated (bind c f st).
Proof.
  intros E Q G. unfold bind. rewrite E.
  destruct (quiet_at (f a) st Q) as [Hg Hq].
  unfold stays_gated, state_after, effects_of in *.
  destruct (f a st) as [[st2 e2] r2]. cbn [fst snd List.app] in *.
  split; [rewrite Hg; exact G | exact Hq].
Qed.

Ltac gated_by_quiet G :=
  lazymatch goal with
  | |- stays_gated (?h ?st) =>
      let Q := fresh "Q" in
      assert (Q : quiet h);
      [ | destruct (quiet_at h st Q) as [Hg Hq]; split; [rewrite Hg; exact G | exact Hq] ]
  end.

Lemma dispatch_gated (JSON_parse : string -> ParseResult) (e : Event) (st : State) :
  processingRef st = true -> clears_gate e = false ->
  stays_gated (dispatch JSON_parse e st).
Proof.
  intros G He. destruct e; try discriminate He; cbn [dispatch].
  - gated_by_quiet G. apply quiet_startCamera.
  - destruct (negb _ && negb _); gated_by_quiet G; quiet_tac.
  - gated_by_quiet G.
    apply quiet_bind; [|intros _; apply quiet_connectWebSocket].
    destruct (wsRef_is_OPEN st); [|quiet_tac].
    destruct (wsRef st); auto using quiet_ws_close with quiet.
  - destruct (socket_readyState st socket) as [[| | |]|];
      gated_by_quiet G; auto using quiet_onopen with quiet.
  - destruct (socket_readyState st socket) as [[| | |]|];
      gated_by_quiet G; auto using quiet_onmessage with quiet.
  - destruct (socket_readyState st socket) as [[| | |]|];
      gated_by_quiet G; auto using quiet_onerror with quiet.
  - destruct (nth_error (sockets st) socket) as [ws|];
      [destruct (readyState ws)|];
      gated_by_quiet G; auto using quiet_onclose with quiet.
  - destruct (timers st) as [|t rest];
      gated_by_quiet G; auto using quiet_reconnect_timeout with quiet.
  - gated_by_quiet G. quiet_tac.
  - unfold loop.
    destruct (loop_isStreaming cl && loop_isConnected cl);
      [|gated_by_quiet G; quiet_tac].
    apply (stays_gated_bind _ _ tt);
      [apply sendFrameToBackend_gated; exact G | | exact G].
    apply quiet_bind; [quiet_tac|]. intros _.
    apply quiet_bind; [quiet_tac|]. intros c. quiet_tac.
Qed.

(** Frames are dropped, not queued: while the gate is set, no sequence of
    events other than the load of a reply image or [stopCamera] sends a
    frame or clears the gate, however many capture cycles run. *)
Theorem frames_dropped_while_in_flight (JSON_parse : string -> ParseResult)
    (es : list Event) (st : State) :
  processingRef st = true ->
  forallb (fun e => negb (clears_gate e)) es = true ->
  processingRef (fst (run JSON_parse st es)) = true /\
  Forall quiet_effect (snd (run JSON_parse st es)).
Proof.
  revert st. induction es as [|e es IH]; intros st G Hes; cbn [run].
  - split; [exact G | constructor].
  - cbn [forallb] in Hes. apply andb_prop in Hes. destruct Hes as [He Hes].
    apply negb_true_iff in He.
    pose proof (dispatch_gated JSON_parse e st G He) as [G1 Q1].
    unfold step, state_after, effects_of in *.
    destruct (dispatch JSON_parse e st) as [[st1 t1] r]. cbn [fst snd] in *.
    destruct (IH st1 G1 Hes) as [G2 Q2].
    destruct (run JSON_parse st1 es) as [st2 t2]. cbn [fst snd] in *.
    split; [exact G2 | apply Forall_app; split; assumption].
Qed.

Lemma frames_dropped_while_in_flight_witness :
  processingRef
    (fst (run demo_parse
            (fst (run demo_parse initialState
                    [ClickStart start_env; SocketOpen 0;
                     AnimationFrame loop_closure capture_env 1016]))
            [AnimationFrame loop_closure capture_env 1033;
             SocketMessage 0 "{type:processed_frame}";
             AnimationFrame loop_closure capture_env 1050;
             ImageError 0;
             AnimationFrame loop_closure capture_env 1066])) = true.
Proof.
  apply (frames_dropped_while_in_flight demo_parse
           [AnimationFrame loop_closure capture_env 1033;
            SocketMessage 0 "{type:processed_frame}";
            AnimationFrame loop_closure capture_env 1050;
            ImageError 0;
            AnimationFrame loop_closure capture_env 1066]
           (fst (run demo_parse initialState
                   [ClickStart start_env; SocketOpen 0;
                    AnimationFrame loop_closure capture_env 1016])));
    reflexivity.
Defined.

(** *** Nothing is sent on a socket that is not open *)

Lemma nth_error_replace {A : Type} (l : list A) (i j : nat) (x : A) :
  (i < List.length l)%nat ->
  nth_error (firstn i l ++ x :: skipn (S i) l)%list j
  = if Nat.eqb j i then Some x else nth_error l j.
Proof.
  intros Hi.
  assert (Hf : List.length (firstn i l) = i) by (rewrite length_firstn; lia).
  destruct (Nat.eqb j i) eqn:E.
  - apply Nat.eqb_eq in E. subst j.
    rewrite nth_error_app2 by lia. rewrite Hf, Nat.sub_diag. reflexivity.
  - apply Nat.eqb_neq in E.
    destruct (Nat.lt_ge_cases j i) as [Hlt | Hge].
    + rewrite nth_error_app1 by lia. rewrite nth_error_firstn.
      destruct (Nat.ltb_spec j i); [reflexivity | lia].
    + rewrite nth_error_app2 by lia. rewrite Hf.
      destruct (j - i)%nat as [|d] eqn:D; [lia|].
      cbn [nth_error]. rewrite nth_error_skipn. f_equal. lia.
Qed.

Lemma not_open_set_readyState (st : State) (i : nat) (r : ReadyState) :
  r <> OPEN -> not_open st ->
  not_open (set_sockets (set_readyState i r (sockets st)) st).
Proof.
  unfold not_open, wsRef_is_OPEN, socket_readyState. cbn [wsRef sockets set_sockets].
  intros Hr H. destruct (wsRef st) as [j|]; [|reflexivity].
  unfold set_readyState. destruct (nth_error (sockets st) i) as [ws|] eqn:E; [|exact H].
  assert (Hi : (i < List.length (sockets st))%nat)
    by (apply nth_error_Some; congruence).
  rewrite nth_error_replace by exact Hi.
  destruct (Nat.eqb j i); [|exact H].
  cbn [option_map readyState]. destruct r; congruence.
Qed.

Lemma not_open_close_socket (st : State) (i : nat) :
  not_open st -> not_open (set_sockets (close_socket i (sockets st)) st).
Proof.
  unfold not_open, wsRef_is_OPEN, socket_readyState. cbn [wsRef sockets set_sockets].
  intros H. destruct (wsRef st) as [j|]; [|reflexivity].
  unfold close_socket. destruct (nth_error (sockets st) i) as [ws|] eqn:E; [|exact H].
  assert (Hi : (i < List.length (sockets st))%nat)
    by (apply nth_error_Some; congruence).
  destruct (readyState ws); try exact H;
    rewrite nth_error_replace by exact Hi;
    (destruct (Nat.eqb j i); [reflexivity | exact H]).
Qed.

(** [ws.close()] on the current socket leaves it not open. *)
Lemma not_open_close_current (st : State) (i : nat) :
  wsRef st = Some i -> not_open (set_sockets (close_socket i (sockets st)) st).
Proof.
  unfold not_open, wsRef_is_OPEN, socket_readyState. cbn [wsRef sockets set_sockets].
  intros ->. unfold close_socket.
  destruct (nth_error (sockets st) i) as [ws|] eqn:E; [|rewrite E; reflexivity].
  assert (Hi : (i < List.length (sockets st))%nat)
    by (apply nth_error_Some; congruence).
  destruct (readyState ws) eqn:R;
    try (rewrite nth_error_replace by exact Hi; rewrite Nat.eqb_refl; reflexivity);
    rewrite E; cbn [option_map]; rewrite R; reflexivity.
Qed.

Lemma not_open_connect (st : State) (ws : WebSocket) :
  readyState ws = CONNECTING ->
  not_open (set_wsRef (Some (List.length (sockets st)))
              (set_sockets (sockets st ++ [ws])%list st)).
Proof.
  intros Hws. unfold not_open, wsRef_is_OPEN, socket_readyState.
  cbn [wsRef sockets set_sockets set_wsRef].
  rewrite nth_error_app2 by lia. rewrite Nat.sub_diag. cbn [nth_error option_map].
  rewrite Hws. reflexivity.
Qed.

Ltac closed_side :=
  first
    [ untouched
    | intros ? _; apply not_open_connect; reflexivity
    | let H := fresh "H" in intros ? H; apply not_open_close_socket; exact H
    | let H := fresh "H" in
      intros ? H; apply not_open_set_readyState; [discriminate | exact H] ].

Lemma sendFrameToBackend_closed (cl : SendClosure) (env : CaptureEnv) (st : State) :
  not_open st -> sendFrameToBackend cl env st = (st, [], Return tt).
Proof.
  intros H. unfold sendFrameToBackend.
  destruct (wsRef st); [|reflexivity]. destruct (video env); [|reflexivity].
  unfold not_open in H. rewrite H. reflexivity.
Qed.

Section Emits.

Variable Q : Effect -> Prop.

Lemma emits_ret {A : Type} (a : A) : emits_only Q (ret a).
Proof. intros st. constructor. Qed.

Lemma emits_throw {A : Type} (exn : string) : emits_only Q (@throw A exn).
Proof. intros st. constructor. Qed.

Lemma emits_get {A : Type} (f : State -> A) : emits_only Q (get f).
Proof. intros st. constructor. Qed.

Lemma emits_modify (f : State -> State) : emits_only Q (modify f).
Proof. intros st. constructor. Qed.

Lemma emits_emit (e : Effect) : Q e -> emits_only Q (emit e).
Proof. intros He st. repeat constructor. exact He. Qed.

Lemma emits_bind {A B : Type} (c : M A) (f : A -> M B) :
  emits_only Q c -> (forall a, emits_only Q (f a)) -> emits_only Q (bind c f).
Proof.
  intros Hc Hf st. specialize (Hc st). unfold effects_of, bind in *.
  destruct (c st) as [[st1 e1] [a | exn]]; cbn [fst snd] in *.
  - specialize (Hf a st1). unfold effects_of in Hf.
    destruct (f a st1) as [[st2 e2] r]. cbn [fst snd] in *.
    apply Forall_app. split; assumption.
  - exact Hc.
Qed.

Lemma emits_if {A : Type} (b : bool) (c1 c2 : M A) :
  emits_only Q c1 -> emits_only Q c2 -> emits_only Q (if b then c1 else c2).
Proof. destruct b; auto. Qed.

End Emits.

Lemma emits_of_quiet {A : Type} (c : M A) : quiet c -> emits_only no_send c.
Proof.
  intros H st. destruct (quiet_at c st H) as [_ Q].
  eapply Forall_impl; [|exact Q]. exact quiet_effect_no_send.
Qed.

Lemma gate_write_no_send (value : bool) : emits_only no_send (write_processingRef value).
Proof.
  unfold write_processingRef. apply emits_bind; [apply emits_modify|].
  intros _. apply emits_emit. unfold no_send. cbn. tauto.
Qed.

Lemma img_onload_no_send (img : Image) (env : LoadEnv) :
  emits_only no_send (img_onload img env).
Proof.
  unfold img_onload.
  apply emits_bind; [apply emits_get|]. intros canvas.
  apply emits_bind; [apply emits_if; [apply emits_modify | apply emits_ret]|]. intros _.
  apply emits_bind; [apply gate_write_no_send|]. intros _.
  apply emits_of_quiet. quiet_tac.
Qed.

Lemma stopCamera_no_send (date_now : Z) (st : State) :
  Forall no_send (effects_of (stopCamera date_now st)).
Proof.
  unfold stopCamera.
  match goal with
  | |- Forall _ (effects_of (?h st)) => cut (emits_only no_send h); [intros E; apply E|]
  end.
  apply emits_bind; [apply emits_of_quiet; quiet_tac|]. intros _.
  apply emits_bind.
  { apply emits_of_quiet. destruct (wsRef st); auto using quiet_ws_close with quiet. }
  intros _.
  apply emits_bind; [apply gate_write_no_send|]. intros _.
  apply emits_of_quiet. quiet_tac.
Qed.

Ltac closed_by_quiet H :=
  lazymatch goal with
  | |- stays_closed (?h ?st) =>
      split;
      [ after_handler H; preserve closed_side
      | cut (emits_only no_send h);
        [ let E := fresh "E" in intros E; apply E | apply emits_of_quiet ] ]
  end.

Lemma stays_closed_bind {A B : Type} (c : M A) (f : A -> M B) (a : A) (st : State) :
  c st = (st, [], Return a) -> stays_closed (f a st) -> stays_closed (bind c f st).
Proof.
  intros E H. unfold bind. rewrite E.
  unfold stays_closed, state_after, effects_of in *.
  destruct (f a st) as [[st2 e2] r2]. cbn [fst snd List.app] in *. exact H.
Qed.

Lemma dispatch_closed (JSON_parse : string -> ParseResult) (e : Event) (st : State) :
  not_open st -> is_socket_open e = false ->
  stays_closed (dispatch JSON_parse e st).
Proof.
  intros H He. destruct e; try discriminate He; cbn [dispatch].
  - split.
    + unfold startCamera. after_handler H. preserve closed_side.
    + destruct (quiet_at _ st (quiet_startCamera env)) as [_ Q].
      eapply Forall_impl; [|exact Q]. exact quiet_effect_no_send.
  - split; [|apply stopCamera_no_send].
    unfold stopCamera. after_handler H. preserve closed_side.
  - destruct (negb _ && negb _); closed_by_quiet H; quiet_tac.
  - closed_by_quiet H.
    apply quiet_bind; [|intros _; apply quiet_connectWebSocket].
    destruct (wsRef_is_OPEN st); [|quiet_tac].
    destruct (wsRef st); auto using quiet_ws_close with quiet.
  - destruct (socket_readyState st socket) as [[| | |]|];
      closed_by_quiet H; auto using quiet_onmessage with quiet.
  - destruct (socket_readyState st socket) as [[| | |]|];
      closed_by_quiet H; auto using quiet_onerror with quiet.
  - destruct (nth_error (sockets st) socket) as [ws|];
      [destruct (readyState ws)|];
      closed_by_quiet H; auto using quiet_onclose with quiet.
  - destruct (timers st) as [|t rest];
      closed_by_quiet H; auto using quiet_reconnect_timeout with quiet.
  - destruct (nth_error (images st) index) as [img|].
    + split; [after_handler H; preserve closed_side|].
      match goal with
      | |- Forall _ (effects_of (?h st)) =>
          cut (emits_only no_send h); [intros E; apply E|]
      end.
      apply emits_bind; [apply emits_modify|]. intros _. apply img_onload_no_send.
    + closed_by_quiet H. quiet_tac.
  - closed_by_quiet H. quiet_tac.
  - unfold loop.
    destruct (loop_isStreaming cl && loop_isConnected cl);
      [|closed_by_quiet H; quiet_tac].
    apply (stays_closed_bind _ _ tt); [apply sendFrameToBackend_closed; exact H|].
    closed_by_quiet H.
    apply quiet_bind; [quiet_tac|]. intros _.
    apply quiet_bind; [quiet_tac|]. intros c. quiet_tac.
Qed.

Lemma run_cons_state (JSON_parse : string -> ParseResult) (e : Event)
    (es : list Event) (st : State) :
  fst (run JSON_parse st (e :: es))
  = fst (run JSON_parse (fst (step JSON_parse st e)) es).
Proof.
  cbn [run]. destruct (step JSON_parse st e) as [st1 t1]. cbn [fst snd].
  destruct (run JSON_parse st1 es) as [st2 t2]. reflexivity.
Qed.

Lemma run_cons_effects (JSON_parse : string -> ParseResult) (e : Event)
    (es : list Event) (st : State) :
  snd (run JSON_parse st (e :: es))
  = (snd (step JSON_parse st e)
     ++ snd (run JSON_parse (fst (step JSON_parse st e)) es))%list.
Proof.
  cbn [run]. destruct (step JSON_parse st e) as [st1 t1]. cbn [fst snd].
  destruct (run JSON_parse st1 es) as [st2 t2]. reflexivity.
Qed.

Lemma run_stays_closed (JSON_parse : string -> ParseResult)
    (es : list Event) (st : State) :
  not_open st ->
  forallb (fun e => negb (is_socket_open e)) es = true ->
  not_open (fst (run JSON_parse st es)) /\
  Forall no_send (snd (run JSON_parse st es)).
Proof.
  revert st. induction es as [|e es IH]; intros st H Hes.
  - split; [exact H | constructor].
  - cbn [forallb] in Hes. apply andb_prop in Hes. destruct Hes as [He Hes].
    apply negb_true_iff in He.
    destruct (dispatch_closed JSON_parse e st H He) as [H1 Q1].
    rewrite run_cons_state, run_cons_effects.
    destruct (IH (fst (step JSON_parse st e)) H1 Hes) as [H2 Q2].
    split; [exact H2 | apply Forall_app; split; assumption].
Qed.

(** While the current socket is not open nothing is sent, whatever the
    closures of the capture loop hold, and only the open event of a socket
    ends that. *)
Theorem no_send_until_socket_opens (JSON_parse : string -> ParseResult)
    (es : list Event) (st : State) :
  not_open st ->
  forallb (fun e => negb (is_socket_open e)) es = true ->
  not_open (fst (run JSON_parse st es)) /\
  Forall no_send (snd (run JSON_parse st es)).
Proof. exact (run_stays_closed JSON_parse es st). Qed.

Lemma no_send_until_socket_opens_witness :
  Forall no_send
    (snd (run demo_parse initialState
            [ClickStart start_env;
             AnimationFrame loop_closure capture_env 1016;
             SocketError 0;
             AnimationFrame loop_closure capture_env 1033])).
Proof.
  apply (no_send_until_socket_opens demo_parse
           [ClickStart start_env;
            AnimationFrame loop_closure capture_env 1016;
            SocketError 0;
            AnimationFrame loop_closure capture_env 1033] initialState);
    reflexivity.
Defined.

(** *** After [stopCamera] *)

Lemma state_after_bind {A B : Type} (c : M A) (f : A -> M B) (a : A) (st : State) :
  completion_of (c st) = Return a ->
  state_after (bind c f st) = state_after (f a (state_after (c st))).
Proof.
  unfold completion_of, state_after, bind.
  destruct (c st) as [[st1 e1] r]. cbn [fst snd]. intros ->.
  destruct (f a st1) as [[st2 e2] r2]. reflexivity.
Qed.

(** [stopCamera] leaves the current socket closing or closed, whatever its
    state was. *)
Lemma stopCamera_closes (date_now : Z) (st : State) :
  not_open (state_after (stopCamera date_now st)).
Proof.
  unfold stopCamera. destruct (wsRef st) as [i|] eqn:W.
  - rewrite (state_after_bind _ _ tt) by reflexivity.
    rewrite (state_after_bind _ _ tt) by reflexivity.
    match goal with
    | |- not_open (state_after (?h ?s)) =>
        cut (preserves not_open h); [intros Hp; apply (Hp s)|preserve closed_side]
    end.
    apply not_open_close_current. exact W.
  - assert (H : not_open st) by (unfold not_open, wsRef_is_OPEN; rewrite W; reflexivity).
    after_handler H. preserve closed_side.
Qed.

(** From [stopCamera] on nothing is transmitted until a socket opens: not by
    a capture loop whose closure still holds the old flags, and not by the
    handlers of the socket that is closing. *)
Theorem nothing_sent_after_stop (JSON_parse : string -> ParseResult)
    (date_now : Z) (es : list Event) (st : State) :
  forallb (fun e => negb (is_socket_open e)) es = true ->
  Forall no_send (snd (run JSON_parse st (ClickStop date_now :: es))).
Proof.
  intros Hes. rewrite run_cons_effects. apply Forall_app. split.
  - apply stopCamera_no_send.
  - apply run_stays_closed; [apply stopCamera_closes | exact Hes].
Qed.

Lemma nothing_sent_after_stop_witness :
  Forall no_send
    (snd (run demo_parse
            (fst (run demo_parse initialState [ClickStart start_env; SocketOpen 0]))
            [ClickStop 1700000060000;
             AnimationFrame loop_closure capture_env 1016;
             SocketClose 0;
             AnimationFrame loop_closure capture_env 1033])).
Proof.
  apply (nothing_sent_after_stop demo_parse 1700000060000
           [AnimationFrame loop_closure capture_env 1016;
            SocketClose 0;
            AnimationFrame loop_closure capture_env 1033]).
  reflexivity.
Defined.

(** *** The reconnect cycle *)

Lemma step_stays_closed (JSON_parse : string -> ParseResult) (e : Event) (st : State) :
  not_open st -> is_socket_open e = false -> not_open (fst (step JSON_parse st e)).
Proof. intros H He. exact (proj1 (dispatch_closed JSON_parse e st H He)). Qed.

Lemma timer_fires_reconnects (JSON_parse : string -> ParseResult)
    (t : Timer) (rest : list Timer) (st : State) :
  timers st = t :: rest -> not_open st ->
  let st1 := fst (step JSON_parse st TimerFires) in
  sockets st1
  = (sockets st ++ [{| readyState := CONNECTING;
                       closure_isStreaming := timer_closure_isStreaming t |}])%list /\
  timers st1 = rest /\
  reconnectCount (connectionState st1) = S (reconnectCount (connectionState st)).
Proof.
  intros T H. unfold step. cbn [dispatch]. rewrite T.
  unfold reconnect_timeout, connectWebSocket, bind, get, setConnectionState, modify.
  cbn -[addLog wsRef_is_OPEN].
  match goal with
  | |- context [wsRef_is_OPEN ?s] => change (wsRef_is_OPEN s) with (wsRef_is_OPEN st)
  end.
  unfold not_open in H. rewrite H. cbn.
  repeat split. lia.
Qed.

Lemma error_keeps_schedule (JSON_parse : string -> ParseResult) (i : nat) (st : State) :
  let st1 := fst (step JSON_parse st (SocketError i)) in
  sockets st1 = sockets st /\ timers st1 = timers st /\
  reconnectCount (connectionState st1) = reconnectCount (connectionState st).
Proof.
  unfold step. cbn [dispatch].
  destruct (socket_readyState st i) as [[| | |]|]; cbn; auto.
Qed.

Lemma close_schedules_retry (JSON_parse : string -> ParseResult)
    (i : nat) (ws : WebSocket) (st : State) :
  nth_error (sockets st) i = Some ws ->
  readyState ws = CONNECTING -> closure_isStreaming ws = true ->
  let st1 := fst (step JSON_parse st (SocketClose i)) in
  timers st1
  = (timers st ++ [{| delay := 3000; timer_closure_isStreaming := true |}])%list /\
  reconnectCount (connectionState st1) = reconnectCount (connectionState st).
Proof.
  intros E R C. unfold step. cbn [dispatch]. rewrite E, R.
  unfold onclose. rewrite C. cbn. auto.
Qed.

Lemma failed_attempt_retries (JSON_parse : string -> ParseResult) (st : State) :
  retrying st ->
  retrying (fst (run JSON_parse st (failed_attempt st))) /\
  reconnectCount (connectionState (fst (run JSON_parse st (failed_attempt st))))
  = S (reconnectCount (connectionState st)).
Proof.
  intros (Hopen & Hne & Hall).
  destruct (timers st) as [|t rest] eqn:T; [congruence|].
  inversion Hall as [|? ? [Ht Hd] Hrest]. subst.
  unfold failed_attempt. rewrite !run_cons_state. cbn [run fst].
  destruct (timer_fires_reconnects JSON_parse t rest st T Hopen) as (S1 & T1 & C1).
  pose proof (step_stays_closed JSON_parse TimerFires st Hopen eq_refl) as O1.
  set (st1 := fst (step JSON_parse st TimerFires)) in *.
  destruct (error_keeps_schedule JSON_parse (List.length (sockets st)) st1)
    as (S2 & T2 & C2).
  pose proof (step_stays_closed JSON_parse (SocketError (List.length (sockets st)))
                st1 O1 eq_refl) as O2.
  set (st2 := fst (step JSON_parse st1 (SocketError (List.length (sockets st))))) in *.
  assert (E : nth_error (sockets st2) (List.length (sockets st))
              = Some {| readyState := CONNECTING;
                        closure_isStreaming := timer_closure_isStreaming t |}).
  { rewrite S2, S1, nth_error_app2 by lia. rewrite Nat.sub_diag. reflexivity. }
  destruct (close_schedules_retry JSON_parse _ _ st2 E eq_refl Ht) as (T3 & C3).
  pose proof (step_stays_closed JSON_parse (SocketClose (List.length (sockets st)))
                st2 O2 eq_refl) as O3.
  set (st3 := fst (step JSON_parse st2 (SocketClose (List.length (sockets st))))) in *.
  split; [split; [exact O3 | split]|].
  - rewrite T3. destruct (timers st2); discriminate.
  - rewrite T3, T2, T1. apply Forall_app. split; [exact Hrest|].
    repeat constructor.
  - rewrite C3, C2, C1. reflexivity.
Qed.

(** The reconnect never gives up and does not look at the streaming flag:
    once a timer set by a socket that captured [isStreaming = true] is
    pending and the engine is down, every failed attempt schedules the next
    one, and the counter grows by one per attempt without a bound. *)
Theorem reconnect_never_gives_up (JSON_parse : string -> ParseResult)
    (n : nat) (st : State) :
  retrying st ->
  retrying (failed_attempts JSON_parse n st) /\
  reconnectCount (connectionState (failed_attempts JSON_parse n st))
  = (reconnectCount (connectionState st) + n)%nat.
Proof.
  revert st. induction n as [|n IH]; intros st H; cbn [failed_attempts].
  - split; [exact H | lia].
  - destruct (failed_attempt_retries JSON_parse st H) as [H1 C1].
    destruct (IH _ H1) as [H2 C2].
    split; [exact H2 | rewrite C2, C1; lia].
Qed.

Lemma reconnect_never_gives_up_witness :
  isStreaming (streamState stopped_with_reconnect_pending) = false /\
  retrying (failed_attempts demo_parse 3 stopped_with_reconnect_pending) /\
  reconnectCount (connectionState (failed_attempts demo_parse 3 stopped_with_reconnect_pending))
  = (reconnectCount (connectionState stopped_with_reconnect_pending) + 3)%nat.
Proof.
  split; [vm_compute; reflexivity|].
  apply (reconnect_never_gives_up demo_parse 3 stopped_with_reconnect_pending).
  split; [vm_compute; reflexivity | split; vm_compute; [discriminate | repeat constructor]].
Defined.

(** *** A reply that arrives after [stopCamera] *)

Lemma stop_resets_counter (JSON_parse : string -> ParseResult)
    (date_now : Z) (st : State) :
  let st1 := fst (step JSON_parse st (ClickStop date_now)) in
  images st1 = images st /\
  processedFrames (sessionStats st1) = 0%nat /\
  isStreaming (streamState st1) = false.
Proof.
  unfold step. cbn [dispatch]. unfold stopCamera.
  destruct (wsRef st); cbn; auto.
Qed.

Lemma load_counts_frame (JSON_parse : string -> ParseResult)
    (i : nat) (img : Image) (env : LoadEnv) (st : State) :
  nth_error (images st) i = Some img ->
  let st1 := fst (step JSON_parse st (ImageLoad i env)) in
  processedFrames (sessionStats st1) = S (processedFrames (sessionStats st)) /\
  isStreaming (streamState st1) = isStreaming (streamState st) /\
  processingRef st1 = false.
Proof.
  intros E. unfold step. cbn [dispatch]. rewrite E. unfold img_onload.
  destruct (truthy_number (image_timestamp img)) eqn:T;
    destruct (canvas_context env) eqn:C;
    destruct (canvasRef st) eqn:R;
    cbn; rewrite ?R; cbn; rewrite ?C; cbn; rewrite ?T; cbn;
    (repeat split; lia).
Qed.

(** Stopping does not cancel a reply whose image is still being decoded:
    when it loads after [stopCamera], the frame counter that [stopCamera]
    reset to 0 counts it, although the session is not streaming. *)
Theorem reply_after_stop_is_counted (JSON_parse : string -> ParseResult)
    (date_now : Z) (i : nat) (img : Image) (env : LoadEnv) (st : State) :
  nth_error (images st) i = Some img ->
  let st1 := fst (run JSON_parse st [ClickStop date_now; ImageLoad i env]) in
  isStreaming (streamState st1) = false /\
  processedFrames (sessionStats st1) = 1%nat.
Proof.
  intros E. rewrite !run_cons_state. cbn [run fst].
  destruct (stop_resets_counter JSON_parse date_now st) as (I1 & F1 & S1).
  set (st1 := fst (step JSON_parse st (ClickStop date_now))) in *.
  rewrite <- I1 in E.
  destruct (load_counts_frame JSON_parse i img env st1 E) as (F2 & S2 & _).
  rewrite S2, F2, S1, F1. split; reflexivity.
Qed.

Lemma reply_after_stop_is_counted_witness :
  let st :=
    fst (run demo_parse initialState
           [ClickStart start_env; SocketOpen 0;
            AnimationFrame loop_closure capture_env 1016;
            SocketMessage 0 "{type:processed_frame}"]) in
  let st1 := fst (run demo_parse st [ClickStop 1700000060000; ImageLoad 0 load_env]) in
  isStreaming (streamState st1) = false /\
  processedFrames (sessionStats st1) = 1%nat.
Proof.
  apply (reply_after_stop_is_counted demo_parse 1700000060000 0
           {| image_timestamp := Some 1700000000100%Z |} load_env).
  reflexivity.
Defined.

(** *** Starting a session that cannot start *)

Lemma eqb_other (name tier : string) : tier <> name -> String.eqb name tier = false.
Proof. intros H. apply String.eqb_neq. congruence. Qed.

(** A 4K session on a tier below Pro does not start: the stream state and
    the sockets stay as they are, no socket is created, and the handler
    completes normally. *)
Theorem startCamera_refuses_4k_below_pro (env : StartEnv) (st : State) :
  quality (streamState st) = Q4K ->
  currentTier st <> "pro" -> currentTier st <> "enterprise" ->
  not_started st (state_after (startCamera env st)) /\
  Forall (fun e => ~ is_new_socket e) (effects_of (startCamera env st)) /\
  completion_of (startCamera env st) = Return tt.
Proof.
  intros Hq Hp He. unfold startCamera. rewrite Hq.
  unfold checkTierLimits. cbn [find subscriptionTiers tier_id].
  rewrite (eqb_other "pro" _ Hp), (eqb_other "enterprise" _ He).
  destruct (String.eqb "free" (currentTier st)); cbn;
    (split; [repeat split | split; [repeat constructor; cbn; tauto | reflexivity]]).
Qed.

Lemma startCamera_refuses_4k_below_pro_witness :
  let st :=
    set_streamState
      {| isStreaming := false; isProcessing := false; fps := 0; latency := 0;
         quality := Q4K; bitrate := 0 |} initialState in
  not_started st (state_after (startCamera start_env st)) /\
  Forall (fun e => ~ is_new_socket e) (effects_of (startCamera start_env st)) /\
  completion_of (startCamera start_env st) = Return tt.
Proof.
  apply startCamera_refuses_4k_below_pro; [reflexivity | discriminate | discriminate].
Defined.

(** When the camera is not available the exception is caught and logged, and
    the session does not start: no socket is created and the stream state
    stays as it is. *)
Theorem startCamera_without_camera (env : StartEnv) (message : string) (st : State) :
  media env = MediaError message ->
  quality (streamState st) <> Q4K ->
  not_started st (state_after (startCamera env st)) /\
  effects_of (startCamera env st)
  = [ConsoleLog info "Initializing professional camera stream...";
     ConsoleLog error ("Camera initialization failed: " ++ message)] /\
  completion_of (startCamera env st) = Return tt.
Proof.
  intros Hm Hq. unfold startCamera. rewrite Hm.
  destruct (quality (streamState st)); [congruence| |];
    cbn; (split; [repeat split | split; reflexivity]).
Qed.

Lemma startCamera_without_camera_witness :
  let env :=
    {| media := MediaError "Permission denied"; start_bg_type := "blur";
       start_performance_now := 0; start_date_now := 1700000000000 |} in
  not_started initialState (state_after (startCamera env initialState)) /\
  effects_of (startCamera env initialState)
  = [ConsoleLog info "Initializing professional camera stream...";
     ConsoleLog error "Camera initialization failed: Permission denied"] /\
  completion_of (startCamera env initialState) = Return tt.
Proof.
  apply (startCamera_without_camera
           {| media := MediaError "Permission denied"; start_bg_type := "blur";
              start_performance_now := 0; start_date_now := 1700000000000 |}
           "Permission denied" initialState);
    [reflexivity | discriminate].
Defined.

(** *** The frame payload *)

Lemma split_on_present (c : ascii) (s : string) :
  Recording.occurs c s = true -> exists l r, split_on c s = (l, Some r).
Proof.
  induction s as [|a s IH]; simpl; [discriminate|].
  destruct (Ascii.eqb a c); simpl.
  - intros _. eauto.
  - intros H. destruct (IH H) as (l & r & E). rewrite E. eauto.
Qed.

(** The payload of a frame is what follows the first comma of the data URL,
    up to the next comma. *)
Theorem split_comma_1_payload (prefix payload : string) :
  Recording.occurs ","%char prefix = false -> Recording.occurs ","%char payload = false ->
  split_comma_1 (prefix ++ "," ++ payload) = Some payload.
Proof.
  intros Hp Hd. unfold split_comma_1.
  change (prefix ++ "," ++ payload) with (prefix ++ String "," payload).
  rewrite RecordingFacts.split_on_first by exact Hp. cbn [snd].
  rewrite RecordingFacts.split_on_absent by exact Hd. reflexivity.
Qed.

Lemma split_comma_1_payload_witness :
  split_comma_1 (jpeg_data_url_prefix ++ "," ++ "/9j/4AAQSkZJRg==")
  = Some "/9j/4AAQSkZJRg==".
Proof.
  apply (split_comma_1_payload jpeg_data_url_prefix "/9j/4AAQSkZJRg=="); reflexivity.
Defined.

(** The payload is undefined exactly when the data URL holds no comma. *)
Theorem split_comma_1_undefined_iff (frameData : string) :
  split_comma_1 frameData = None <-> Recording.occurs ","%char frameData = false.
Proof.
  unfold split_comma_1. split.
  - intros H. destruct (Recording.occurs ","%char frameData) eqn:O; [|reflexivity].
    destruct (split_on_present _ _ O) as (l & r & E). rewrite E in H. discriminate.
  - intros O. rewrite RecordingFacts.split_on_absent by exact O. reflexivity.
Qed.

(** *** A capture cycle that fails *)

(** When drawing, encoding or sending a frame throws, the exception does not
    leave [sendFrameToBackend]: it is logged, nothing is transmitted, and the
    gate is clear afterwards, so the next cycle can send. *)
Theorem failed_capture_releases_gate (cl : SendClosure) (env : CaptureEnv)
    (v : Video) (exn : string) (st : State) :
  wsRef_is_OPEN st = true -> processingRef st = false ->
  video env = Some v -> video_readyState v = 4%Z -> temp_context env = true ->
  capture_exn env = Some exn \/ (capture_exn env = None /\ send_exn env = Some exn) ->
  processingRef (state_after (sendFrameToBackend cl env st)) = false /\
  Forall no_send (effects_of (sendFrameToBackend cl env st)) /\
  In (ConsoleLog error ("Frame processing error: " ++ exn))
     (effects_of (sendFrameToBackend cl env st)) /\
  completion_of (sendFrameToBackend cl env st) = Return tt.
Proof.
  intros Ho Hg Hv Hr Hc Hx. unfold sendFrameToBackend.
  destruct (wsRef st) as [socket|] eqn:W.
  2:{ unfold wsRef_is_OPEN in Ho. rewrite W in Ho. discriminate. }
  rewrite Hv, Ho, Hg, Hr, Hc. cbn [negb orb Z.eqb Pos.eqb].
  destruct Hx as [Hx | [Hx Hs]].
  - rewrite Hx. cbn.
    repeat split; [repeat constructor; unfold no_send; cbn; tauto | tauto].
  - rewrite Hx, Hs. cbn.
    repeat split; [repeat constructor; unfold no_send; cbn; tauto | tauto].
Qed.

Lemma failed_capture_releases_gate_witness :
  let env :=
    {| video := Some {| video_readyState := 4; videoWidth := 1920; videoHeight := 1080 |};
       temp_context := true; capture_exn := None;
       toDataURL := fun _ => "data:image/jpeg;base64,/9j/4AAQSkZJRg==";
       capture_now := 1700000000100;
       send_exn := Some "InvalidStateError" |} in
  let st := fst (run demo_parse initialState [ClickStart start_env; SocketOpen 0]) in
  processingRef (state_after (sendFrameToBackend (loop_send loop_closure) env st)) = false /\
  Forall no_send (effects_of (sendFrameToBackend (loop_send loop_closure) env st)) /\
  In (ConsoleLog error "Frame processing error: InvalidStateError")
     (effects_of (sendFrameToBackend (loop_send loop_closure) env st)) /\
  completion_of (sendFrameToBackend (loop_send loop_closure) env st) = Return tt.
Proof.
  apply (failed_capture_releases_gate (loop_send loop_closure)
           {| video := Some {| video_readyState := 4; videoWidth := 1920;
                               videoHeight := 1080 |};
              temp_context := true; capture_exn := None;
              toDataURL := fun _ => "data:image/jpeg;base64,/9j/4AAQSkZJRg==";
              capture_now := 1700000000100;
              send_exn := Some "InvalidStateError" |}
           {| video_readyState := 4; videoWidth := 1920; videoHeight := 1080 |}
           "InvalidStateError");
    [reflexivity | reflexivity | reflexivity | reflexivity | reflexivity
    | right; split; reflexivity].
Defined.

End HomeMoreFacts.
